(** * Relaxation controllers of pylada.vasp.relax

    A shallow embedding of [src/pylada/vasp/relax.py]: the convergence
    policy built by [_get_is_converged] and the three generators
    [iter_relax], [iter_training] and [iter_epitaxial].

    Conventions of the embedding.
    - Python floats are the rationals [Q]; comparisons are the boolean
      [Qltb].  Nothing below depends on rounding.
    - A generator is a computation in the monad [M]: it threads the
      [world] (the requests made to the functional so far and the
      directories present on disk) and ends with a value, a Python
      exception, or because the fuel of an unbounded [while] ran out.
      The world is kept in every outcome, so that what was requested
      before an exception stays observable.
    - The functional ([vasp.iter], [vasp.Extract]) is not part of the
      module: it is the section variable [calc], giving for every
      directory what a run leaves there.
    - [kwargs] is the keyword dictionary after [kwargs.pop('relaxation',
      ...)]; the relaxation string read at that line is the field
      [relaxation] of the functional. *)

From Stdlib Require Import QArith Qabs ZArith List Bool Lia Lqa.
From Stdlib Require Import Ascii String DecimalString DecimalNat.
From stdpp Require Import gmap strings.
Import ListNotations.

Close Scope Q_scope.
Open Scope string_scope.
Open Scope nat_scope.

(** ** Numbers *)

Definition Qltb (x y : Q) : bool := negb (Qle_bool y x).

(** ** Strings: [str], [int], [os.path.join], [split('/')[-1]] *)

(** [str(n)] for a step counter. *)
Definition str (n : nat) : string := NilZero.string_of_uint (Nat.to_uint n).

(** [str(z)] for an integer, as used by [format]. *)
Definition str_Z (z : Z) : string := NilZero.string_of_int (Z.to_int z).

(** [int(s)] on an optionally signed run of decimal digits.  Python also
    accepts surrounding blanks, a plus sign and underscores; those
    spellings never name a step directory and are answered [None] here. *)
Definition int (s : string) : option Z :=
  match NilZero.int_of_string s with
  | Some (Decimal.Pos d) => Some (Z.of_nat (Nat.of_uint d))
  | Some (Decimal.Neg d) => Some (- Z.of_nat (Nat.of_uint d))%Z
  | None => None
  end.

Definition sep : ascii := "/"%char.

Definition startswith_sep (s : string) : bool :=
  match s with
  | String c _ => Ascii.eqb c sep
  | EmptyString => false
  end.

Fixpoint endswith_sep (s : string) : bool :=
  match s with
  | EmptyString => false
  | String c EmptyString => Ascii.eqb c sep
  | String _ r => endswith_sep r
  end.

Definition is_empty_str (s : string) : bool :=
  match s with EmptyString => true | _ => false end.

(** [os.path.join(a, b)] on POSIX. *)
Definition join (a b : string) : string :=
  if startswith_sep b then b
  else if is_empty_str a || endswith_sep a then a ++ b
  else a ++ String sep b.

Definition join3 (a b c : string) : string := join (join a b) c.

(** [s.split('/')]: the first piece and the pieces after it. *)
Fixpoint split (s : string) : string * list string :=
  match s with
  | EmptyString => (EmptyString, [])
  | String c r =>
      let '(h, t) := split r in
      if Ascii.eqb c sep then (EmptyString, h :: t) else (String c h, t)
  end.

(** [s.split('/')[-1]] *)
Definition split_last (s : string) : string :=
  let '(h, t) := split s in List.last t h.

(** [sub in s], i.e. [s.find(sub) != -1]. *)
Definition contains (sub s : string) : bool :=
  match String.index 0 sub s with Some _ => true | None => false end.

Fixpoint no_sep (s : string) : bool :=
  match s with
  | EmptyString => true
  | String c r => negb (Ascii.eqb c sep) && no_sep r
  end.

(** ** Data model *)

Definition vec3 : Type := Q * Q * Q.
(** A 3x3 matrix, by rows. *)
Definition mat3 : Type := vec3 * vec3 * vec3.

(** [pylada.crystal.Structure], as far as the module reads it: the cell and
    the atomic positions; [len(structure)] is the number of atoms. *)
Record Structure := mkStructure {
  cell : mat3;
  atoms : list vec3
}.

Definition len (s : Structure) : nat := length (atoms s).

(** The extraction object of one run: the attributes the module reads. *)
Record extractor := mkExtractor {
  directory : string;
  success : bool;
  structure : Structure;
  total_energies : list Q;
  total_energy : Q;
  forces : list vec3;
  stress : mat3
}.

(** Values of keyword arguments. *)
Inductive pyval :=
| PyInt (z : Z)
| PyStr (s : string)
| PyBool (b : bool).

(** The functional, as far as the controllers read it.  Its other
    attributes ([encut], [ediffg], ...) only reach the external program. *)
Record Vasp := mkVasp {
  ediff : Q;
  relaxation : string
}.

Inductive pyexn :=
| ExternalRunFailed (msg : string)
| ValueError (msg : string)
| TypeError (msg : string)
| IndexError (msg : string)
| FileNotFoundError (path : string).

(** The [convergence] argument: [None], a callable, or a number. *)
Inductive criterion :=
| CNone
| CCallable (f : extractor -> bool)
| CNum (c : Q).

Inductive Phase := CellShape | Ionic | ExtraPhase | Static.

(** One call [vasp.iter(structure, outdir=..., restart=..., relaxation=...,
    **params)].  [r_relaxation] is the explicit keyword; [iter_epitaxial]
    passes it inside [params] instead. *)
Record request := mkRequest {
  r_structure : Structure;
  r_outdir : string;
  r_restart : option extractor;
  r_relaxation : option string;
  r_params : gmap string pyval
}.

(** What a generator does that its caller can see: it asks for a step, or
    it yields the final extraction object of [dir]. *)
Inductive event :=
| Step (ph : Phase) (rq : request)
| Final (dir : string).

Record world := mkWorld {
  log : list event;
  fs : list string
}.

(** ** The monad of generators *)

Inductive res (A : Type) :=
| Ok (a : A) (w : world)
| Raise (e : pyexn) (w : world)
| Fuel (w : world).
Arguments Ok {A} a w.
Arguments Raise {A} e w.
Arguments Fuel {A} w.

Definition M (A : Type) : Type := world -> res A.

Definition ret {A} (a : A) : M A := fun w => Ok a w.

Definition bind {A B} (m : M A) (k : A -> M B) : M B :=
  fun w =>
    match m w with
    | Ok a w' => k a w'
    | Raise e w' => Raise e w'
    | Fuel w' => Fuel w'
    end.

Definition raise {A} (e : pyexn) : M A := fun w => Raise e w.

Definition out_of_fuel {A} : M A := fun w => Fuel w.

Definition lift {A} (x : pyexn + A) : M A :=
  match x with
  | inl e => raise e
  | inr a => ret a
  end.

Declare Scope gen_scope.
Delimit Scope gen_scope with gen.
Notation "x <- c1 ;; c2" := (bind c1 (fun x => c2))
  (at level 100, c1 at next level, right associativity) : gen_scope.
Notation "c1 ;; c2" := (bind c1 (fun _ => c2))
  (at level 100, right associativity) : gen_scope.

Definition world_of {A} (r : res A) : world :=
  match r with
  | Ok _ w => w
  | Raise _ w => w
  | Fuel w => w
  end.

(** ** The file system *)

(** [q] is [p] or lies below it. *)
Definition under (p q : string) : bool :=
  String.eqb p q || String.prefix (p ++ String sep EmptyString) q.

Definition exists_path (p : string) (dirs : list string) : bool :=
  existsb (under p) dirs.

(** [shutil.rmtree(p)]: raises when [p] is not there. *)
Definition rmtree (p : string) : M unit :=
  fun w =>
    if exists_path p (fs w)
    then Ok tt (mkWorld (log w) (List.filter (fun q => negb (under p q)) (fs w)))
    else Raise (FileNotFoundError p) w.

(** ** The convergence policy: [_get_is_converged] *)

(** [i = int(extractor.directory.split('/')[-1]) + 1] *)
Definition step_number (e : extractor) : pyexn + Z :=
  match int (split_last (directory e)) with
  | Some z => inr (z + 1)%Z
  | None => inl (ValueError "invalid literal for int() with base 10")
  end.

(** The statements shared by the three closures: the [None] guard, the
    [success] guard and the [minrelsteps] gate; [body] is what follows. *)
Definition guarded (minrelsteps : Z) (body : extractor -> pyexn + bool)
    (extractor : option extractor) : pyexn + bool :=
  match extractor with
  | None => inr true
  | Some e =>
      if negb (success e)
      then inl (ExternalRunFailed "VASP calculation did not succeed.")
      else
        match step_number e with
        | inl x => inl x
        | inr i =>
            if (0 <? minrelsteps)%Z && (i <? minrelsteps)%Z then inr false
            else body e
        end
  end.

(** Lines 381-389: a callable criterion. *)
Definition is_converged_callable (convergence : extractor -> bool)
    (minrelsteps : Z) : option extractor -> pyexn + bool :=
  guarded minrelsteps (fun e => inr (convergence e)).

(** [abs(E[-2] - E[-1:]) < convergence], after the [shape[0] < 2] test. *)
Definition energy_test (convergence : Q) (e : extractor) : pyexn + bool :=
  match rev (total_energies e) with
  | e1 :: e2 :: _ => inr (Qltb (Qabs (e2 - e1)) convergence)
  | _ => inr true
  end.

(** Lines 391-401: a positive number. *)
Definition is_converged_energy (convergence : Q) (minrelsteps : Z)
  : option extractor -> pyexn + bool :=
  guarded minrelsteps (energy_test convergence).

Definition Qmax (x y : Q) : Q := if Qltb x y then y else x.

Definition abs_components (f : list vec3) : list Q :=
  flat_map (fun v => let '(x, y, z) := v in [Qabs x; Qabs y; Qabs z]) f.

(** [all(max(abs(extractor.forces)) < abs(convergence))]; numpy's [max]
    raises on an empty array. *)
Definition force_test (convergence : Q) (e : extractor) : pyexn + bool :=
  match abs_components (forces e) with
  | [] => inl (ValueError "zero-size array to reduction operation maximum")
  | x :: l => inr (Qltb (fold_left Qmax l x) (Qabs convergence))
  end.

(** Lines 403-412: any other number. *)
Definition is_converged_force (convergence : Q) (minrelsteps : Z)
  : option extractor -> pyexn + bool :=
  guarded minrelsteps (force_test convergence).

(** [convergence > x] and [convergence < x].  Python 3 does not order a
    function against a number. *)
Definition py_gt (convergence : criterion) (x : Q) : pyexn + bool :=
  match convergence with
  | CNum c => inr (Qltb x c)
  | _ => inl (TypeError "'>' not supported between instances of 'function' and 'float'")
  end.

Definition py_lt (convergence : criterion) (x : Q) : pyexn + bool :=
  match convergence with
  | CNum c => inr (Qltb c x)
  | _ => inl (TypeError "'<' not supported between instances of 'function' and 'float'")
  end.

(** Lines 370-375. *)
Definition scaled (vasp : Vasp) (structure : Structure) (convergence : criterion)
  : criterion :=
  match convergence with
  | CNone => CNum (10 * ediff vasp)
  | CCallable f => CCallable f
  | CNum c =>
      if Qltb 0 c then CNum (c * inject_Z (Z.of_nat (len structure))) else CNum c
  end.

Definition policy : Type := option extractor -> pyexn + bool.

Definition _get_is_converged (vasp : Vasp) (structure : Structure)
    (convergence : criterion) (minrelsteps : Z) : pyexn + policy :=
  let convergence := scaled vasp structure convergence in
  (* if convergence > 0 and convergence < vasp.ediff: raise ValueError *)
  match py_gt convergence 0 with
  | inl x => inl x
  | inr pos =>
      match (if pos then py_lt convergence (ediff vasp) else inr false) with
      | inl x => inl x
      | inr true =>
          inl (ValueError "Energy convergence criteria ediffg is smaller than ediff.")
      | inr false =>
          match convergence with
          | CCallable f => inr (is_converged_callable f minrelsteps)
          | CNum c =>
              if Qltb 0 c then inr (is_converged_energy c minrelsteps)
              else inr (is_converged_force c minrelsteps)
          | CNone => inl (TypeError "NoneType")
          end
      end
  end.

(** ** Linear algebra of [iter_epitaxial] *)

Definition vdot (a b : vec3) : Q :=
  let '(a1, a2, a3) := a in
  let '(b1, b2, b3) := b in
  (a1 * b1 + a2 * b2 + a3 * b3)%Q.

Definition vadd (a b : vec3) : vec3 :=
  let '(a1, a2, a3) := a in
  let '(b1, b2, b3) := b in
  ((a1 + b1)%Q, (a2 + b2)%Q, (a3 + b3)%Q).

Definition vscale (x : Q) (a : vec3) : vec3 :=
  let '(a1, a2, a3) := a in ((x * a1)%Q, (x * a2)%Q, (x * a3)%Q).

Definition col (k : nat) (m : mat3) : vec3 :=
  let '(r1, r2, r3) := m in
  let pick (r : vec3) := let '(x, y, z) := r in
                         match k with 0 => x | 1 => y | _ => z end in
  (pick r1, pick r2, pick r3).

(** [dot(m, v)] *)
Definition mdotv (m : mat3) (v : vec3) : vec3 :=
  let '(r1, r2, r3) := m in (vdot r1 v, vdot r2 v, vdot r3 v).

(** [dot(v, m)] *)
Definition vdotm (v : vec3) (m : mat3) : vec3 :=
  (vdot v (col 0 m), vdot v (col 1 m), vdot v (col 2 m)).

(** [dot(a, b)] on matrices. *)
Definition mdotm (a b : mat3) : mat3 :=
  let '(r1, r2, r3) := a in (vdotm r1 b, vdotm r2 b, vdotm r3 b).

Definition madd (a b : mat3) : mat3 :=
  let '(a1, a2, a3) := a in
  let '(b1, b2, b3) := b in
  (vadd a1 b1, vadd a2 b2, vadd a3 b3).

(** [outer(a, b) * x] *)
Definition outer_scaled (a b : vec3) (x : Q) : mat3 :=
  let '(a1, a2, a3) := a in
  (vscale x (vscale a1 b), vscale x (vscale a2 b), vscale x (vscale a3 b)).

(** ** The controllers *)

(** The local variables of [iter_relax] and [iter_training]. *)
Record locals := mkLocals {
  nb_steps : nat;
  output : option extractor;
  relaxed_structure : Structure;
  params : gmap string pyval
}.

(** The local variables of the search of [iter_epitaxial]. *)
Record bracket := mkBracket {
  xstart : Q;
  estart : extractor;
  xend : Q;
  eend : extractor;
  allcalcs : list extractor
}.

Local Open Scope gen_scope.

Section Controllers.

(** Modelled from the spec: the functional of [pylada.vasp.functional]
    is the external StepExecutor; [calc d] is what a run in directory
    [d] leaves for [vasp.Extract(d)] to read. *)
Variable calc : string -> extractor.

(** Modelled from the spec: [extract(outdir)], the Result found in a
    directory; its location is that directory. *)
Definition Extract (d : string) : extractor :=
  let c := calc d in
  mkExtractor d (success c) (structure c) (total_energies c)
              (total_energy c) (forces c) (stress c).

(** Modelled from the spec: [iterate(structure, outdir, resume_checkpoint,
    phase, params)]; the generator hands the sub-steps to its caller, and
    by the checkpoint layout the step leaves its result in [outdir]. *)
Definition vasp_iter (ph : Phase) (rq : request) : M unit :=
  fun w => Ok tt (mkWorld (log w ++ [Step ph rq]) (r_outdir rq :: fs w)).

(** [yield iter_relax.Extract(outdir)] *)
Definition yield_final (dir : string) : M unit :=
  fun w => Ok tt (mkWorld (log w ++ [Final dir]) (fs w)).

(** An expression statement: the value is built and dropped. *)
Definition discard {A} (_ : A) : M unit := ret tt.

(** [if not output.success: ExternalRunFailed("...")] -- the exception
    object is built, there is no [raise]. *)
Definition did_not_complete (output : extractor) : M unit :=
  if negb (success output)
  then discard (ExternalRunFailed "VASP calculations did not complete.")
  else ret tt.

Section Staged.

Variable vasp : Vasp.
Variable outdir : string.
Variable first_trial : gmap string pyval.
Variable maxcalls : Z.
Variable nofail : bool.
Variable kwargs : gmap string pyval.
Variable is_converged : policy.

(** [maxcalls <= 0 or nb_steps < ceiling] *)
Definition more_calls (ceiling : Z) (nb : nat) : bool :=
  (maxcalls <=? 0)%Z || (Z.of_nat nb <? ceiling)%Z.

(** [nb_steps == 1 and len(first_trial) != 0] *)
Definition after_first_trial (nb : nat) : bool :=
  (nb =? 1) && negb (size first_trial =? 0).

(** One pass through the body of a relaxation loop of [iter_relax],
    up to and including the convergence test.  The result is the
    updated locals and whether the loop is left ([break]). *)
Definition relax_body (ph : Phase) (sub rel : string) (l : locals)
  : M (locals * bool) :=
  let fulldir := join3 outdir sub (str (nb_steps l)) in
  vasp_iter ph (mkRequest (relaxed_structure l) fulldir (output l)
                          (Some rel) (params l)) ;;
  let output := Extract (join3 outdir sub (str (nb_steps l))) in
  did_not_complete output ;;
  let relaxed_structure := structure output in
  let nb_steps := S (nb_steps l) in
  if after_first_trial nb_steps
  then ret (mkLocals nb_steps (Some output) relaxed_structure kwargs, false)
  else
    isConv <- lift (is_converged (Some output)) ;;
    ret (mkLocals nb_steps (Some output) relaxed_structure (params l), isConv).

(** The two relaxation loops of [iter_relax] (lines 238-265 and
    272-296) are the same text up to the phase: its ceiling, the word
    looked up in [relaxation], its sub-directory and the [relaxation]
    keyword of the call. *)
Fixpoint relax_loop (ph : Phase) (ceiling : Z) (word sub rel : string)
    (fuel : nat) (l : locals) : M locals :=
  if more_calls ceiling (nb_steps l) && contains word (relaxation vasp)
  then
    match fuel with
    | O => out_of_fuel
    | S fuel =>
        r <- relax_body ph sub rel l ;;
        if snd r then ret (fst r)
        else relax_loop ph ceiling word sub rel fuel (fst r)
    end
  else ret l.

(** Lines 238-265. *)
Definition cellshape_loop : nat -> locals -> M locals :=
  relax_loop CellShape maxcalls "cellshape" "relax_cellshape" (relaxation vasp).

(** Lines 272-296. *)
Definition ionic_loop : nat -> locals -> M locals :=
  relax_loop Ionic (maxcalls + 1) "ionic" "relax_ions" "ionic".

(** Lines 306-325: at most one [relgw] step. *)
Definition gwcalc (l : locals) : M locals :=
  if more_calls (maxcalls + 2) (nb_steps l) && contains "relgw" (relaxation vasp)
  then
    let fulldir := join3 outdir "relax_gwcalc" (str (nb_steps l)) in
    vasp_iter ExtraPhase (mkRequest (relaxed_structure l) fulldir (output l)
                                    (Some "relgw") (params l)) ;;
    let output := Extract (join3 outdir "relax_gwcalc" (str (nb_steps l))) in
    did_not_complete output ;;
    ret (mkLocals (S (nb_steps l)) (Some output) (structure output) (params l))
  else ret l.

(** [if nofail == False and is_converged(output) == False: raise
    ExternalRunFailed("Could not converge ... in {0} iterations.")] *)
Definition could_not_converge (what : string) : pyexn :=
  ExternalRunFailed
    ("Could not converge " ++ what ++ " in " ++ str_Z maxcalls ++ " iterations.").

Definition check_converged (what : string) (l : locals) : M unit :=
  if negb nofail
  then
    c <- lift (is_converged (output l)) ;;
    if negb c then raise (could_not_converge what) else ret tt
  else ret tt.

(** The final static calculation, in [outdir] itself. *)
Definition static_step (l : locals) : M extractor :=
  vasp_iter Static (mkRequest (relaxed_structure l) outdir (output l)
                              (Some "static") kwargs) ;;
  let output := Extract outdir in
  did_not_complete output ;;
  ret output.

(** Lines 351-353. *)
Definition cleanup (keepsteps : bool) (output : extractor) : M unit :=
  if success output && negb keepsteps
  then rmtree (join outdir "cellshape") ;; rmtree (join outdir "ions")
  else ret tt.

(** Lines 219-356, once the policy is built. *)
Definition relax_run (keepsteps : bool) (structure : Structure) (fuel : nat)
  : M unit :=
  let params := first_trial ∪ kwargs in
  l <- cellshape_loop fuel (mkLocals 0 None structure params) ;;
  check_converged "cell-shape" l ;;
  l <- ionic_loop fuel l ;;
  l <- gwcalc l ;;
  check_converged "ions" l ;;
  output <- static_step l ;;
  cleanup keepsteps output ;;
  yield_final outdir.

(** One cycle of [iter_training] (lines 697-752). *)
Definition training_body (l : locals) : M (locals * bool) :=
  let params := first_trial ∪ kwargs in
  let fulldir := join3 outdir "relax_cellshape" (str (nb_steps l)) in
  vasp_iter CellShape (mkRequest (relaxed_structure l) fulldir (output l)
                                 (Some (relaxation vasp)) params) ;;
  let output := Extract (join3 outdir "relax_cellshape" (str (nb_steps l))) in
  did_not_complete output ;;
  let relaxed_structure := structure output in
  let nb_steps := S (nb_steps l) in
  isConv <- lift (is_converged (Some output)) ;;
  let params := if negb (size first_trial =? 0) then kwargs else params in
  let fulldir := join3 outdir "relax_ions" (str nb_steps) in
  vasp_iter Ionic (mkRequest relaxed_structure fulldir (Some output)
                             (Some "ionic") params) ;;
  let output := Extract (join3 outdir "relax_ions" (str nb_steps)) in
  did_not_complete output ;;
  let relaxed_structure := structure output in
  let nb_steps := S nb_steps in
  ret (mkLocals nb_steps (Some output) relaxed_structure params, isConv).

Fixpoint training_loop (fuel : nat) (l : locals) : M locals :=
  if more_calls maxcalls (nb_steps l)
  then
    match fuel with
    | O => out_of_fuel
    | S fuel =>
        r <- training_body l ;;
        if snd r then ret (fst r) else training_loop fuel (fst r)
    end
  else ret l.

(** Lines 685-792, once the policy is built. *)
Definition training_run (structure : Structure) (fuel : nat) : M unit :=
  l <- training_loop fuel (mkLocals 0 None structure kwargs) ;;
  check_converged "cell-shape" l ;;
  check_converged "ions" l ;;
  _ <- static_step l ;;
  yield_final outdir.

End Staged.

(** [first_trial = {} if first_trial is None]; the later test
    [first_trial is not None] is then always true. *)
Definition or_empty (first_trial : option (gmap string pyval)) : gmap string pyval :=
  match first_trial with
  | None => ∅
  | Some d => d
  end.

(** [iter_relax(vasp, structure, outdir, first_trial, maxcalls, keepsteps,
    nofail, convergence, minrelsteps, **kwargs)] *)
Definition iter_relax (vasp : Vasp) (structure : Structure) (outdir : string)
    (first_trial : option (gmap string pyval)) (maxcalls : Z)
    (keepsteps nofail : bool) (convergence : criterion) (minrelsteps : Z)
    (kwargs : gmap string pyval) (fuel : nat) : M unit :=
  is_converged <- lift (_get_is_converged vasp structure convergence minrelsteps) ;;
  relax_run vasp outdir (or_empty first_trial) maxcalls nofail kwargs
            is_converged keepsteps structure fuel.

(** [iter_training(vasp, structure, outdir, first_trial, maxcalls, nofail,
    convergence, minrelsteps, **kwargs)]: [minrelsteps] is accepted and
    not handed to [_get_is_converged], whose default is [-1]. *)
Definition iter_training (vasp : Vasp) (structure : Structure) (outdir : string)
    (first_trial : option (gmap string pyval)) (maxcalls : Z)
    (nofail : bool) (convergence : criterion) (minrelsteps : Z)
    (kwargs : gmap string pyval) (fuel : nat) : M unit :=
  is_converged <- lift (_get_is_converged vasp structure convergence (-1)) ;;
  training_run vasp outdir (or_empty first_trial) maxcalls nofail kwargs
               is_converged structure fuel.

Section Epitaxial.

(** ['{0:0<12.10}'.format(x)], the name of the directory of a trial
    strain. *)
Variable fmt : Q -> string.

(** The [structure] argument. *)
Variable structure0 : Structure.
Variable outdir : string.
(** The direction after [array(direction) / norm(direction)]. *)
Variable direction : vec3.
Variable epiconv : Q.
Variable initstep : Q.
Variable kwargs : gmap string pyval.

(** [kwargs] once [relaxation], [encut] and [ediff] are popped and
    [istruc] and [relaxation] are set (lines 465-475). *)
Definition search_kwargs : gmap string pyval :=
  <["relaxation" := PyInt 2]>
    (<["istruc" := PyStr "input"]>
       (delete "ediff" (delete "encut" (delete "relaxation" kwargs)))).

Definition change_structure (x : Q) : Structure :=
  let strain := outer_scaled direction direction x in
  mkStructure (madd (cell structure0) (mdotm strain (cell structure0)))
              (map (fun pos => vadd pos (mdotv strain pos)) (atoms structure0)).

(** [dot(dot(direction, stress), direction)] *)
Definition component (stress : mat3) : Q :=
  vdot (vdotm direction stress) direction.

(** [allcalcs[-1]] *)
Definition last_calc (allcalcs : list extractor) : M extractor :=
  match last allcalcs with
  | Some e => ret e
  | None => raise (IndexError "list index out of range")
  end.

(** One trial strain: the call to the functional in
    [outdir/relax_ions/<x>], resumed from [allcalcs[-1]] if there is
    one, and the extraction of its result. *)
Definition trial (x : Q) (allcalcs : list extractor) : M extractor :=
  vasp_iter Ionic (mkRequest (change_structure x)
                             (join3 outdir "relax_ions" (fmt x))
                             (last allcalcs) None search_kwargs) ;;
  ret (Extract (join3 outdir "relax_ions" (fmt x))).

(** [initstep if stress_direction > 0e0 else -initstep] *)
Definition signed_step (stress_direction : Q) : Q :=
  if Qltb 0 stress_direction then initstep else (- initstep)%Q.

(** Lines 517-526: walk until the stress changes sign. *)
Fixpoint bracket_loop (stress_direction : Q) (fuel : nat) (b : bracket)
  : M bracket :=
  e <- last_calc (allcalcs b) ;;
  if Qltb 0 (stress_direction * component (stress e))
  then
    match fuel with
    | O => out_of_fuel
    | S fuel =>
        let xstart := xend b in
        let estart := eend b in
        let xend := (xend b + signed_step stress_direction)%Q in
        eend <- trial xend (allcalcs b) ;;
        bracket_loop stress_direction fuel
          (mkBracket xstart estart xend eend (allcalcs b ++ [eend])%list)
    end
  else ret b.

(** [abs(estart.total_energy - eend.total_energy)
     > epiconv * float(len(structure))] *)
Definition keep_bisecting (b : bracket) : bool :=
  Qltb (epiconv * inject_Z (Z.of_nat (len structure0)))
       (Qabs (total_energy (estart b) - total_energy (eend b))).

(** The body of the bisection loop (lines 530-541). *)
Definition bisect_body (stress_direction : Q) (b : bracket) : M bracket :=
  let xmid := ((1 # 2) * (xend b + xstart b))%Q in
  emid <- trial xmid (allcalcs b) ;;
  let allcalcs := (allcalcs b ++ [emid])%list in
  if Qltb 0 (stress_direction * component (stress emid))
  then ret (mkBracket xmid emid (xend b) (eend b) allcalcs)
  else ret (mkBracket (xstart b) (estart b) xmid emid allcalcs).

(** Lines 529-541. *)
Fixpoint bisect_loop (stress_direction : Q) (fuel : nat) (b : bracket)
  : M bracket :=
  if keep_bisecting b
  then
    match fuel with
    | O => out_of_fuel
    | S fuel =>
        b <- bisect_body stress_direction b ;;
        bisect_loop stress_direction fuel b
    end
  else ret b.

(** Lines 496-515: the run at zero strain, the search direction and
    the first step in that direction. *)
Definition first_bracket : M (Q * bracket) :=
  let allcalcs := [] in
  let xstart := 0%Q in
  estart <- trial xstart allcalcs ;;
  let allcalcs := (allcalcs ++ [estart])%list in
  e <- last_calc allcalcs ;;
  let stress_direction := if Qltb 0 (component (stress e)) then 1%Q else (- (1))%Q in
  let xend := signed_step stress_direction in
  eend <- trial xend allcalcs ;;
  ret (stress_direction, mkBracket xstart estart xend eend (allcalcs ++ [eend])%list).

(** [eend if estart.total_energy > eend.total_energy else estart] *)
Definition efinal (b : bracket) : extractor :=
  if Qltb (total_energy (eend b)) (total_energy (estart b))
  then eend b else estart b.

(** [iter_epitaxial(vasp, structure, outdir, direction, epiconv,
    initstep, **kwargs)].  The rewriting of the OUTCAR of the static
    run (lines 552-562) changes a file of the external program and no
    value the generator reads; it is left out. *)
Definition iter_epitaxial (fuel : nat) : M unit :=
  sb <- first_bracket ;;
  b <- bracket_loop (fst sb) fuel (snd sb) ;;
  b <- bisect_loop (fst sb) fuel b ;;
  let efinal := efinal b in
  vasp_iter Static (mkRequest (structure efinal) outdir (Some efinal) None
                              (<["relaxation" := PyStr "static"]> search_kwargs)) ;;
  yield_final outdir.

End Epitaxial.

End Controllers.

(** ** Observations on a run *)

Definition phase_eqb (a b : Phase) : bool :=
  match a, b with
  | CellShape, CellShape | Ionic, Ionic
  | ExtraPhase, ExtraPhase | Static, Static => true
  | _, _ => false
  end.

Definition is_step (ph : Phase) (ev : event) : bool :=
  match ev with
  | Step ph' _ => phase_eqb ph ph'
  | Final _ => false
  end.

(** The number of steps of a phase requested in a log. *)
Definition steps (ph : Phase) (evs : list event) : nat :=
  length (List.filter (is_step ph) evs).

Definition is_final (ev : event) : bool :=
  match ev with
  | Final _ => true
  | Step _ _ => false
  end.

(** The run ended normally and the last thing it did was to yield the
    final extraction object of [dir]. *)
Definition emits_final {A} (r : res A) (dir : string) : Prop :=
  match r with
  | Ok _ w => last (log w) = Some (Final dir)
  | _ => False
  end.

(** The test a criterion stands for, with no gate on the step number. *)
Definition criterion_test (convergence : criterion) (e : extractor) : pyexn + bool :=
  match convergence with
  | CCallable f => inr (f e)
  | CNum c => if Qltb 0 c then energy_test c e else force_test c e
  | CNone => inl (TypeError "NoneType")
  end.

Section Chains.

Variable calc : string -> extractor.

(** Every step of a phase selected by [check] resumes from the result
    of the step requested just before it, and from [prev] if there is
    none. *)
Fixpoint chained (check : Phase -> bool) (prev : option extractor)
    (evs : list event) : Prop :=
  match evs with
  | [] => True
  | Step ph rq :: evs =>
      (check ph = true -> r_restart rq = prev)
      /\ chained check (Some (Extract calc (r_outdir rq))) evs
  | Final _ :: evs => chained check prev evs
  end.

(** The result of the last step requested in a log. *)
Fixpoint latest (prev : option extractor) (evs : list event) : option extractor :=
  match evs with
  | [] => prev
  | Step _ rq :: evs => latest (Some (Extract calc (r_outdir rq))) evs
  | Final _ :: evs => latest prev evs
  end.

End Chains.

(** The steps of a phase are the same in both worlds. *)
Definition same_steps (ph : Phase) (w w' : world) : Prop :=
  steps ph (log w') = steps ph (log w).

(** The request made by one pass through the body of a relaxation loop. *)
Definition body_request (outdir sub rel : string) (l : locals) : request :=
  mkRequest (relaxed_structure l) (join3 outdir sub (str (nb_steps l)))
            (output l) (Some rel) (params l).

(** The world after a request. *)
Definition asked (ph : Phase) (rq : request) (w : world) : world :=
  mkWorld (log w ++ [Step ph rq]) (r_outdir rq :: fs w).

(** [m], started when the latest result is [o] and every step so far
    resumed from its predecessor, keeps it so, however it ends; when it
    returns [a] the latest result is [post a]. *)
Definition keeps_chain (calc : string -> extractor) (check : Phase -> bool)
    {A} (m : M A) (o : option extractor) (post : A -> option extractor) : Prop :=
  forall w,
    chained calc check None (log w) ->
    o = latest calc None (log w) ->
    chained calc check None (log (world_of (m w)))
    /\ forall a w', m w = Ok a w' -> post a = latest calc None (log w').

(** The same, for a computation whose value is not looked at. *)
Definition resumes (calc : string -> extractor) (check : Phase -> bool)
    {A} (m : M A) (o : option extractor) : Prop :=
  forall w,
    chained calc check None (log w) ->
    o = latest calc None (log w) ->
    chained calc check None (log (world_of (m w))).

(** The parameters of the calls of [iter_training]: every cell-shape call
    carries [first_trial] over [kwargs], every other call [kwargs]. *)
Definition training_params (first_trial kwargs : gmap string pyval) (ev : event) : Prop :=
  match ev with
  | Step CellShape rq => r_params rq = first_trial ∪ kwargs
  | Step _ rq => r_params rq = kwargs
  | Final _ => True
  end.

(** A property of the events of the log that holds after if it held
    before. *)
Definition log_keeps (P : event -> Prop) (w w' : world) : Prop :=
  Forall P (log w) -> Forall P (log w').



Definition every_phase (_ : Phase) : bool := true.
Definition search_phase (ph : Phase) : bool := negb (phase_eqb ph Static).

(** [q] is neither [outdir/cellshape], [outdir/ions] nor below them. *)
Definition spared (outdir q : string) : bool :=
  negb (under (join outdir "cellshape") q) && negb (under (join outdir "ions") q).

(** Every directory in which the log has a step is in the file system. *)
Definition step_directories_kept (w : world) : Prop :=
  forall ph rq, In (Step ph rq) (log w) -> In (r_outdir rq) (fs w).

(** Every step of the log was requested in a directory that is still
    there and that the clean-up of [iter_relax] spares. *)
Definition steps_in_spared_directories (outdir : string) (w : world) : Prop :=
  forall ph rq, In (Step ph rq) (log w) ->
    In (r_outdir rq) (fs w) /\ spared outdir (r_outdir rq) = true.


(** Every step of the log is [good]. *)
Definition settled (good : Phase -> request -> Prop) (evs : list event) : Prop :=
  forall ph rq, In (Step ph rq) evs -> good ph rq.

(** Every step of the log that something follows is [good]. *)
Definition settled_before_last (good : Phase -> request -> Prop)
    (evs : list event) : Prop :=
  settled good (removelast evs).

(** However a computation started from a settled log ends, the steps that
    something follows are good; and all of them are when it returns. *)
Definition settles {A} (good : Phase -> request -> Prop) (m : M A) : Prop :=
  forall w, settled good (log w) ->
    match m w with
    | Ok _ w' => settled good (log w')
    | Raise _ w' | Fuel w' => settled_before_last good (log w')
    end.

(** The step of [iter_relax] that is not tested: the first one, when
    there is a first trial. *)
Definition first_trial_step (first_trial : gmap string pyval) (outdir : string)
    (rq : request) : Prop :=
  size first_trial <> 0 /\ exists sub, r_outdir rq = join3 outdir sub (str 0).

(** A cell-shape or ionic step of [iter_relax] that succeeded or was not
    tested. *)
Definition relaxation_step_ok (calc : string -> extractor)
    (first_trial : gmap string pyval) (outdir : string)
    (ph : Phase) (rq : request) : Prop :=
  ph = CellShape \/ ph = Ionic ->
  success (calc (r_outdir rq)) = true \/ first_trial_step first_trial outdir rq.

(** A cell-shape step of [iter_training] that succeeded. *)
Definition cellshape_step_ok (calc : string -> extractor)
    (ph : Phase) (rq : request) : Prop :=
  ph = CellShape -> success (calc (r_outdir rq)) = true.

(** [p'] is [p] strained by [x] along [d]: what is orthogonal to [d] is
    kept, what is along [d] is scaled by [1 + x |d|^2]. *)
Definition strained_along (d : vec3) (x : Q) (p p' : vec3) : Prop :=
  (forall u, (vdot u d == 0)%Q -> (vdot u p' == vdot u p)%Q)
  /\ (vdot d p' == (1 + x * vdot d d) * vdot d p)%Q.

(** How a computation ends: with [Q] when it returns, with [K] of the
    world when it stops. *)
Definition ends {A} (K : world -> Prop) (Q : A -> world -> Prop) (r : res A) : Prop :=
  match r with
  | Ok a w => Q a w
  | Raise _ w | Fuel w => K w
  end.

(** A call made with [kwargs] alone. *)
Definition base_call (kwargs : gmap string pyval) (ev : event) : Prop :=
  match ev with
  | Step _ rq => r_params rq = kwargs
  | Final _ => True
  end.

(** The calls of a run of [iter_relax]: the first one, if it is not the
    static one, is made with [first_trial] laid over [kwargs], and every
    other one with [kwargs] alone. *)
Definition first_trial_first (first_trial kwargs : gmap string pyval)
    (evs : list event) : Prop :=
  match evs with
  | [] => True
  | Step Static rq :: rest => r_params rq = kwargs /\ Forall (base_call kwargs) rest
  | Step _ rq :: rest =>
      r_params rq = first_trial ∪ kwargs /\ Forall (base_call kwargs) rest
  | Final _ :: rest => Forall (base_call kwargs) rest
  end.

(** The [i]-th event of a run of [iter_relax], when it is a step, was
    requested in a directory named [i], or in [outdir] for the static
    step. *)
Definition numbered (outdir : string) (evs : list event) : Prop :=
  forall i ph rq, nth_error evs i = Some (Step ph rq) ->
    match ph with
    | Static => r_outdir rq = outdir
    | CellShape => r_outdir rq = join3 outdir "relax_cellshape" (str i)
    | Ionic => r_outdir rq = join3 outdir "relax_ions" (str i)
    | ExtraPhase => r_outdir rq = join3 outdir "relax_gwcalc" (str i)
    end.

(** What the log of a run of [iter_relax] shows of its calls. *)
Definition calls_as_expected (outdir : string) (first_trial kwargs : gmap string pyval)
    (w : world) : Prop :=
  numbered outdir (log w) /\ first_trial_first first_trial kwargs (log w).

(** Between two passes of a loop of [iter_relax]: the counter [n] is the
    number of calls made, and the parameters [p] are [kwargs] once a call
    has been made. *)
Definition loop_state (outdir : string) (first_trial kwargs : gmap string pyval)
    (n : nat) (p : gmap string pyval) (w : world) : Prop :=
  length (log w) = n
  /\ calls_as_expected outdir first_trial kwargs w
  /\ (n = 0 -> p = first_trial ∪ kwargs)
  /\ (n <> 0 -> p = kwargs).

(** * Sample inputs

    Small inputs on which the properties below are exercised. *)

Definition unit_cell : mat3 := ((1, 0, 0), (0, 1, 0), (0, 0, 1))%Q.
Definition no_stress : mat3 := ((0, 0, 0), (0, 0, 0), (0, 0, 0))%Q.
Definition one_atom : Structure := mkStructure unit_cell [(0, 0, 0)%Q].

(** A functional with [ediff = 1e-5] that relaxes cell shape, then ions. *)
Definition demo_vasp : Vasp := mkVasp (1 # 100000) "cellshape ionic".

(** The result of a run with the given outcome and energy trace. *)
Definition run_of (dir : string) (ok : bool) (energies : list Q) : extractor :=
  mkExtractor dir ok one_atom energies (List.last energies 0%Q) [] no_stress.

(** An executor whose every run succeeds with a one-entry energy trace. *)
Definition steady (dir : string) : extractor := run_of dir true [(-5)%Q].

(** The result of the first cell-shape step of a run in [out], with a
    flat two-entry trace. *)
Definition first_step_flat : extractor :=
  run_of "out/relax_cellshape/0" true [(-5)%Q; (-5)%Q].

(** The same with a trace that still moves by 1/1000. *)
Definition first_step_moving : extractor :=
  run_of "out/relax_cellshape/0" true [(-5)%Q; (-5 - (1 # 1000))%Q].

(** An executor whose every run succeeds and whose energy still moves by
    one unit at the end of every trace: no run ever looks converged. *)
Definition restless (dir : string) : extractor := run_of dir true [0%Q; 1%Q].

(** A functional that only relaxes the ions. *)
Definition ionic_vasp : Vasp := mkVasp (1 # 100000) "ionic".

(** A first-trial dictionary with one override. *)
Definition two_ionic_steps : gmap string pyval := {[ "nsw" := PyInt 2 ]}.

(** ['{0:0<12.10}'.format(x)] on the strains of the examples. *)
Definition demo_fmt (x : Q) : string :=
  if Qeq_bool x 0 then "0.0000000000"
  else if Qeq_bool x (1 # 20) then "0.0500000000"
  else if Qeq_bool x (1 # 40) then "0.0250000000"
  else if Qeq_bool x (- (1 # 20)) then "-0.050000000"
  else "other".

(** A stress tensor with the given component along [0, 0, 1]. *)
Definition zz_stress (s : Q) : mat3 := ((0, 0, 0), (0, 0, 0), (0, 0, s))%Q.

(** An executor given by a table: for a directory, the stress along
    [0, 0, 1] and the total energy found there. *)
Definition table_calc (tbl : list (string * (Q * Q))) (dir : string) : extractor :=
  match List.find (fun row => String.eqb (fst row) dir) tbl with
  | Some (_, (s, e)) => mkExtractor dir true one_atom [e] e [] (zz_stress s)
  | None => mkExtractor dir true one_atom [0%Q] 0 [] (zz_stress 0)
  end.

(** Tension at zero strain, compression at 0.05, equal energies. *)
Definition level_calc : string -> extractor :=
  table_calc [("out/relax_ions/0.0000000000", (1, 0)%Q);
              ("out/relax_ions/0.0500000000", ((- (1))%Q, 0%Q))].


(** Tension at 0 and at 0.025, compression at 0.05. *)
Definition slope_calc : string -> extractor :=
  table_calc [("out/relax_ions/0.0000000000", (1, 1)%Q);
              ("out/relax_ions/0.0250000000", (1 # 2, 9 # 20)%Q);
              ("out/relax_ions/0.0500000000", ((- (1))%Q, (1 # 2)%Q))].

Definition z_axis : vec3 := (0, 0, 1)%Q.

(** An executor whose runs succeed everywhere but in [out] itself, where
    the static calculation is made. *)
Definition static_fails (dir : string) : extractor :=
  run_of dir (negb (String.eqb dir "out")) [(-5)%Q].

(** An executor whose every run fails. *)
Definition failing (dir : string) : extractor := run_of dir false [(-5)%Q].

(* TEST DATA *)

(** * Properties *)

(** ** Numbers *)

Lemma Qltb_lt (x y : Q) : Qltb x y = true <-> (x < y)%Q.
Proof.
  unfold Qltb. rewrite negb_true_iff.
  split; intros H.
  - apply Qnot_le_lt. intros Hle. apply Qle_bool_iff in Hle. congruence.
  - destruct (Qle_bool y x) eqn:E; [|reflexivity].
    apply Qle_bool_iff in E. exfalso. exact (Qlt_not_le _ _ H E).
Qed.

Lemma Qltb_ge (x y : Q) : Qltb x y = false <-> (y <= x)%Q.
Proof.
  unfold Qltb. rewrite negb_false_iff. apply Qle_bool_iff.
Qed.

(** ** The convergence policy *)

Lemma guarded_open (minrelsteps : Z) (body : extractor -> pyexn + bool)
    (e : extractor) (i : Z) :
  success e = true ->
  step_number e = inr i ->
  (minrelsteps <= 0 \/ minrelsteps <= i)%Z ->
  guarded minrelsteps body (Some e) = body e.
Proof.
  intros Hs Hi Hg. unfold guarded. rewrite Hs, Hi. simpl.
  destruct (0 <? minrelsteps)%Z eqn:E1; simpl; [|reflexivity].
  destruct (i <? minrelsteps)%Z eqn:E2; [|reflexivity].
  apply Z.ltb_lt in E1, E2. lia.
Qed.

Lemma guarded_closed (minrelsteps : Z) (body : extractor -> pyexn + bool)
    (e : extractor) (i : Z) :
  success e = true ->
  step_number e = inr i ->
  (0 < minrelsteps)%Z -> (i < minrelsteps)%Z ->
  guarded minrelsteps body (Some e) = inr false.
Proof.
  intros Hs Hi H0 H1. unfold guarded. rewrite Hs, Hi. simpl.
  apply Z.ltb_lt in H0, H1. rewrite H0, H1. reflexivity.
Qed.

(** What [_get_is_converged] answers for a number, by cases on the
    scaled criterion. *)
Lemma get_is_converged_num (vasp : Vasp) (structure : Structure) (c : Q)
    (minrelsteps : Z) :
  let c' := if Qltb 0 c then (c * inject_Z (Z.of_nat (len structure)))%Q else c in
  _get_is_converged vasp structure (CNum c) minrelsteps =
  if Qltb 0 c' && Qltb c' (ediff vasp)
  then inl (ValueError "Energy convergence criteria ediffg is smaller than ediff.")
  else if Qltb 0 c' then inr (is_converged_energy c' minrelsteps)
       else inr (is_converged_force c' minrelsteps).
Proof.
  unfold _get_is_converged, scaled.
  destruct (Qltb 0 c) eqn:Ec; cbn zeta; simpl.
  - destruct (Qltb 0 (c * inject_Z (Z.of_nat (len structure)))) eqn:E1; simpl;
      [|reflexivity].
    destruct (Qltb _ (ediff vasp)); reflexivity.
  - rewrite Ec. reflexivity.
Qed.

Lemma get_is_converged_none (vasp : Vasp) (structure : Structure) (minrelsteps : Z) :
  let c' := (10 * ediff vasp)%Q in
  _get_is_converged vasp structure CNone minrelsteps =
  if Qltb 0 c' then inr (is_converged_energy c' minrelsteps)
  else inr (is_converged_force c' minrelsteps).
Proof.
  unfold _get_is_converged, scaled. simpl.
  destruct (Qltb 0 (10 * ediff vasp)) eqn:E1; simpl; [|reflexivity].
  destruct (Qltb (10 * ediff vasp) (ediff vasp)) eqn:E2; [|reflexivity].
  exfalso. apply Qltb_lt in E1, E2.
  lra.
Qed.

Lemma get_is_converged_callable (vasp : Vasp) (structure : Structure)
    (f : extractor -> bool) (minrelsteps : Z) :
  exists msg, _get_is_converged vasp structure (CCallable f) minrelsteps
              = inl (TypeError msg).
Proof. eexists. reflexivity. Qed.







(** C10.  Whatever [minrelsteps] is given to [iter_training], the run is
    the one of the policy built with the default [-1], and that policy
    applies the test of the criterion to every successful step result,
    the very first one included: the gate never answers for it. *)
Theorem C10_training_policy_not_gated (calc : string -> extractor) (vasp : Vasp)
    (structure : Structure) (outdir : string)
    (first_trial : option (gmap string pyval)) (maxcalls : Z) (nofail : bool)
    (convergence : criterion) (minrelsteps : Z) (kwargs : gmap string pyval)
    (fuel : nat) (w : world) (is_converged : policy) (e : extractor) (i : Z) :
  _get_is_converged vasp structure convergence (-1) = inr is_converged ->
  success e = true ->
  step_number e = inr i ->
  iter_training calc vasp structure outdir first_trial maxcalls nofail
                convergence minrelsteps kwargs fuel w
  = training_run calc vasp outdir (or_empty first_trial) maxcalls nofail kwargs
                 is_converged structure fuel w
  /\ is_converged (Some e) = criterion_test (scaled vasp structure convergence) e.
Proof.
  intros Hget Hs Hi. split.
  - unfold iter_training, bind. rewrite Hget. reflexivity.
  - assert (Hopen : forall body,
             guarded (-1) body (Some e) = body e).
    { intros body. apply (guarded_open _ _ _ i Hs Hi). left. lia. }
    destruct convergence as [|f|c].
    + rewrite get_is_converged_none in Hget. simpl.
      destruct (Qltb 0 (10 * ediff vasp)); injection Hget as <-; apply Hopen.
    + destruct (get_is_converged_callable vasp structure f (-1)) as [msg Hm].
      congruence.
    + rewrite get_is_converged_num in Hget. unfold scaled.
      destruct (Qltb 0 c) eqn:Ec.
      * simpl. destruct (Qltb 0 (c * _)) eqn:E1; simpl in Hget.
        -- destruct (Qltb _ (ediff vasp)); [discriminate|].
           injection Hget as <-. apply Hopen.
        -- injection Hget as <-. apply Hopen.
      * simpl. rewrite Ec. rewrite Ec in Hget. simpl in Hget.
        injection Hget as <-. apply Hopen.
Qed.

Lemma C10_training_policy_not_gated_witness :
  let P := is_converged_energy (10 * ediff demo_vasp) (-1) in
  let e := first_step_moving in
  let w := mkWorld [] [] in
  (_get_is_converged demo_vasp one_atom CNone (-1) = inr P
   /\ success e = true /\ step_number e = inr 1%Z)
  /\ (iter_training steady demo_vasp one_atom "out" None 4 false CNone 7 ∅ 9 w
      = training_run steady demo_vasp "out" (or_empty None) 4 false ∅ P one_atom 9 w
      /\ P (Some e) = criterion_test (scaled demo_vasp one_atom CNone) e).
Proof.
  intros P e w.
  assert (H1 : _get_is_converged demo_vasp one_atom CNone (-1) = inr P)
    by reflexivity.
  assert (H2 : success e = true) by reflexivity.
  assert (H3 : step_number e = inr 1%Z) by reflexivity.
  split; [tauto|].
  exact (C10_training_policy_not_gated steady demo_vasp one_atom "out" None 4 false
           CNone 7 ∅ 9 w P e 1 H1 H2 H3).
Defined.

(** ** Logs and the monad *)

Lemma steps_app (ph : Phase) (a b : list event) :
  steps ph (a ++ b) = steps ph a + steps ph b.
Proof. unfold steps. rewrite List.filter_app, length_app. reflexivity. Qed.

Lemma steps_snoc_step (ph ph' : Phase) (rq : request) (evs : list event) :
  steps ph (evs ++ [Step ph' rq]) = steps ph evs + (if phase_eqb ph ph' then 1 else 0).
Proof. rewrite steps_app. unfold steps. simpl. destruct (phase_eqb ph ph'); reflexivity. Qed.

Lemma steps_snoc_final (ph : Phase) (dir : string) (evs : list event) :
  steps ph (evs ++ [Final dir]) = steps ph evs.
Proof. rewrite steps_app. unfold steps. simpl. lia. Qed.

(** A relation between the world before and after that every part of a
    computation keeps is kept by the whole. *)
Lemma bind_keeps {A B} (R : world -> world -> Prop) (m : M A) (k : A -> M B) :
  (forall w1 w2 w3, R w1 w2 -> R w2 w3 -> R w1 w3) ->
  (forall w, R w (world_of (m w))) ->
  (forall a w, R w (world_of (k a w))) ->
  forall w, R w (world_of (bind m k w)).
Proof.
  intros Htrans Hm Hk w. unfold bind.
  pose proof (Hm w) as H. destruct (m w) as [a w'|e w'|w']; simpl in *; auto.
  eapply Htrans; [exact H | apply Hk].
Qed.

Lemma bind_fuel {A B} (m : M A) (k : A -> M B) (w w' : world) :
  bind m k w = Fuel w' ->
  m w = Fuel w' \/ exists a w1, m w = Ok a w1 /\ k a w1 = Fuel w'.
Proof.
  unfold bind. destruct (m w) as [a w1|e w1|w1]; intros H.
  - right. eauto.
  - discriminate.
  - left. injection H as ->. reflexivity.
Qed.

Lemma same_steps_trans (ph : Phase) (w1 w2 w3 : world) :
  same_steps ph w1 w2 -> same_steps ph w2 w3 -> same_steps ph w1 w3.
Proof. unfold same_steps. congruence. Qed.

(** The statement that builds the exception and drops it does nothing. *)
Lemma did_not_complete_ok (out : extractor) (w : world) :
  did_not_complete out w = Ok tt w.
Proof. unfold did_not_complete, discard, ret. destruct (negb (success out)); reflexivity. Qed.

Section StagedFacts.

Variable calc : string -> extractor.
Variable vasp : Vasp.
Variable outdir : string.
Variable first_trial : gmap string pyval.
Variable maxcalls : Z.
Variable nofail : bool.
Variable kwargs : gmap string pyval.
Variable is_converged : policy.

Local Abbreviation relax_body := (relax_body calc outdir first_trial kwargs is_converged).
Local Abbreviation relax_loop := (relax_loop calc vasp outdir first_trial maxcalls kwargs is_converged).
Local Abbreviation gwcalc := (gwcalc calc vasp outdir maxcalls).
Local Abbreviation check_converged := (check_converged maxcalls nofail is_converged).
Local Abbreviation static_step := (static_step calc outdir kwargs).
Local Abbreviation cleanup := (cleanup outdir).

Local Abbreviation body_request := (body_request outdir).

(** One pass through a loop body: it asks for exactly one step, resumed
    from [output]; then either the first-trial shortcut goes on with
    [kwargs], or the policy is asked about the new result. *)
Lemma relax_body_spec (ph : Phase) (sub rel : string) (l : locals) (w : world) :
  let rq := body_request sub rel l in
  let out := Extract calc (r_outdir rq) in
  match relax_body ph sub rel l w with
  | Ok (l', brk) w' =>
      w' = asked ph rq w
      /\ nb_steps l' = S (nb_steps l)
      /\ output l' = Some out
      /\ relaxed_structure l' = structure out
      /\ (if after_first_trial first_trial (S (nb_steps l))
          then brk = false /\ params l' = kwargs
          else is_converged (Some out) = inr brk /\ params l' = params l)
  | Raise e w' =>
      w' = asked ph rq w
      /\ after_first_trial first_trial (S (nb_steps l)) = false
      /\ is_converged (Some out) = inl e
  | Fuel _ => False
  end.
Proof.
  intros rq out. subst rq out.
  unfold relax_body, bind, vasp_iter.
  rewrite did_not_complete_ok. unfold ret, asked, body_request. simpl.
  destruct (after_first_trial first_trial (S (nb_steps l))) eqn:Ea.
  - simpl. auto 10.
  - unfold lift, raise, ret.
    destruct (is_converged _) as [e|b]; simpl; auto 10.
Qed.

(** *** Counting the steps of a loop *)

Lemma more_calls_bounded (ceiling : Z) (nb : nat) :
  (0 < maxcalls)%Z -> more_calls maxcalls ceiling nb = true ->
  (Z.of_nat nb < ceiling)%Z.
Proof.
  intros Hpos. unfold more_calls.
  destruct (maxcalls <=? 0)%Z eqn:E; [apply Z.leb_le in E; lia|].
  simpl. apply Z.ltb_lt.
Qed.

Lemma relax_loop_steps (ph : Phase) (ceiling : Z) (word sub rel : string)
    (fuel : nat) :
  (0 < maxcalls)%Z ->
  forall (l : locals) (w : world),
    let r := relax_loop ph ceiling word sub rel fuel l w in
    (Z.of_nat (steps ph (log (world_of r))) + Z.of_nat (nb_steps l)
     <= Z.of_nat (steps ph (log w)) + Z.max (Z.of_nat (nb_steps l)) ceiling)%Z
    /\ (forall ph', phase_eqb ph' ph = false -> same_steps ph' w (world_of r))
    /\ (forall l' w', r = Ok l' w' ->
          nb_steps l' + steps ph (log w) = nb_steps l + steps ph (log w')
          /\ (Z.of_nat (nb_steps l') <= Z.max (Z.of_nat (nb_steps l)) ceiling)%Z).
Proof.
  intros Hpos. induction fuel as [|fuel IH]; intros l w; simpl.
  - destruct (more_calls maxcalls ceiling (nb_steps l) && _) eqn:Ec; simpl;
      (split; [lia|]); (split; [intros; reflexivity|]).
    + discriminate.
    + intros l' w' [= <- <-]. lia.
  - destruct (more_calls maxcalls ceiling (nb_steps l) && _) eqn:Ec; simpl.
    2:{ split; [lia|]. split; [intros; reflexivity|].
        intros l' w' [= <- <-]. lia. }
    apply andb_true_iff in Ec. destruct Ec as [Ec _].
    apply (more_calls_bounded _ _ Hpos) in Ec.
    unfold bind. pose proof (relax_body_spec ph sub rel l w) as Hb.
    destruct (relax_body ph sub rel l w) as [[l1 brk] w1|e w1|w1];
      [| |contradiction].
    + destruct Hb as (-> & Hnb & _).
      assert (Hst : steps ph (log (asked ph (body_request sub rel l) w))
                    = S (steps ph (log w))).
      { simpl. rewrite steps_snoc_step.
        replace (phase_eqb ph ph) with true by (destruct ph; reflexivity). lia. }
      assert (Hoth : forall ph', phase_eqb ph' ph = false ->
                same_steps ph' w (asked ph (body_request sub rel l) w)).
      { intros ph' Hne. unfold same_steps. simpl.
        rewrite steps_snoc_step, Hne. lia. }
      cbn [fst snd]. destruct brk; cbn [world_of ret].
      * unfold ret. cbn [world_of]. split; [lia|]. split; [exact Hoth|].
        intros l' w' [= <- <-]. lia.
      * specialize (IH l1 (asked ph (body_request sub rel l) w)).
        cbv zeta in IH. destruct IH as (IH1 & IH2 & IH3).
        split; [lia|]. split.
        -- intros ph' Hne. eapply same_steps_trans; [apply Hoth, Hne | apply IH2, Hne].
        -- intros l' w' Hr. destruct (IH3 l' w' Hr). lia.
    + destruct Hb as (-> & _). simpl.
      split.
      * rewrite steps_snoc_step.
        replace (phase_eqb ph ph) with true by (destruct ph; reflexivity). lia.
      * split; [|discriminate].
        intros ph' Hne. unfold same_steps. simpl.
        rewrite steps_snoc_step, Hne. lia.
Qed.

(** With a positive [maxcalls], a loop whose fuel covers what is left
    of its ceiling does not stop for lack of fuel. *)
Lemma relax_loop_fuel (ph : Phase) (ceiling : Z) (word sub rel : string)
    (fuel : nat) :
  (0 < maxcalls)%Z ->
  forall (l : locals) (w w' : world),
    (ceiling <= Z.of_nat fuel + Z.of_nat (nb_steps l))%Z ->
    relax_loop ph ceiling word sub rel fuel l w <> Fuel w'.
Proof.
  intros Hpos. induction fuel as [|fuel IH]; intros l w w' Hf; simpl.
  - destruct (more_calls maxcalls ceiling (nb_steps l) && _) eqn:Ec;
      [|discriminate].
    apply andb_true_iff in Ec. destruct Ec as [Ec _].
    apply (more_calls_bounded _ _ Hpos) in Ec. lia.
  - destruct (more_calls maxcalls ceiling (nb_steps l) && _) eqn:Ec;
      [|discriminate].
    unfold bind. pose proof (relax_body_spec ph sub rel l w) as Hb.
    destruct (relax_body ph sub rel l w) as [[l1 brk] w1|e w1|w1];
      [|discriminate|contradiction].
    destruct Hb as (_ & Hnb & _). simpl.
    destruct brk; [discriminate|].
    apply IH. lia.
Qed.

(** *** What follows the loops *)

Lemma check_converged_world (what : string) (l : locals) (w : world) :
  world_of (check_converged what l w) = w.
Proof.
  unfold check_converged, bind, lift, raise, ret.
  destruct (negb nofail); [|reflexivity].
  destruct (is_converged (output l)) as [e|[|]]; reflexivity.
Qed.

Lemma check_converged_not_fuel (what : string) (l : locals) (w w' : world) :
  check_converged what l w <> Fuel w'.
Proof.
  unfold check_converged, bind, lift, raise, ret.
  destruct (negb nofail); [|discriminate].
  destruct (is_converged (output l)) as [e|[|]]; discriminate.
Qed.

Lemma gwcalc_spec (l : locals) (w : world) :
  gwcalc l w = Ok l w
  \/ exists rq, gwcalc l w
                = Ok (mkLocals (S (nb_steps l)) (Some (Extract calc (r_outdir rq)))
                               (structure (Extract calc (r_outdir rq))) (params l))
                     (asked ExtraPhase rq w)
                /\ r_restart rq = output l.
Proof.
  unfold gwcalc, bind, vasp_iter.
  destruct (more_calls _ _ _ && _); [|left; reflexivity].
  right. eexists (mkRequest _ _ _ _ _). simpl.
  split; [|reflexivity].
  rewrite did_not_complete_ok. reflexivity.
Qed.

Lemma static_step_spec (l : locals) (w : world) :
  static_step l w
  = Ok (Extract calc outdir)
       (asked Static (mkRequest (relaxed_structure l) outdir (output l)
                                (Some "static") kwargs) w).
Proof.
  unfold static_step, bind, vasp_iter.
  rewrite did_not_complete_ok. reflexivity.
Qed.

Lemma cleanup_log (keepsteps : bool) (out : extractor) (w : world) :
  log (world_of (cleanup keepsteps out w)) = log w.
Proof.
  unfold cleanup, bind, rmtree, ret.
  destruct (success out && negb keepsteps); [|reflexivity].
  destruct (exists_path _ (fs w)); [|reflexivity]. simpl.
  destruct (exists_path _ _); reflexivity.
Qed.

Lemma cleanup_not_fuel (keepsteps : bool) (out : extractor) (w w' : world) :
  cleanup keepsteps out w <> Fuel w'.
Proof.
  unfold cleanup, bind, rmtree, ret.
  destruct (success out && negb keepsteps); [|discriminate].
  destruct (exists_path _ (fs w)); [|discriminate]. simpl.
  destruct (exists_path _ _); discriminate.
Qed.

(** What [iter_relax] does after the ionic loop, from the [relgw] step
    to the final [yield]. *)
Lemma relax_tail_same_steps (ph : Phase) (keepsteps : bool) (l : locals) (w : world) :
  phase_eqb ph ExtraPhase = false -> phase_eqb ph Static = false ->
  same_steps ph w
    (world_of ((l <- gwcalc l ;;
                check_converged "ions" l ;;
                output <- static_step l ;;
                cleanup keepsteps output ;;
                yield_final outdir) w)).
Proof.
  intros Hx Hs. revert w.
  apply bind_keeps; [apply same_steps_trans| |intros l1].
  { intros w. destruct (gwcalc_spec l w) as [->|(rq & -> & _)].
    - reflexivity.
    - unfold same_steps. simpl. rewrite steps_snoc_step, Hx. lia. }
  apply bind_keeps; [apply same_steps_trans| |intros _].
  { intros w. rewrite check_converged_world. reflexivity. }
  apply bind_keeps; [apply same_steps_trans| |intros out].
  { intros w. rewrite static_step_spec. unfold same_steps. simpl.
    rewrite steps_snoc_step, Hs. lia. }
  apply bind_keeps; [apply same_steps_trans| |intros _].
  { intros w. unfold same_steps. rewrite cleanup_log. reflexivity. }
  intros w. unfold same_steps, yield_final. simpl.
  apply steps_snoc_final.
Qed.

Lemma relax_tail_not_fuel (keepsteps : bool) (l : locals) (w w' : world) :
  (l <- gwcalc l ;;
   check_converged "ions" l ;;
   output <- static_step l ;;
   cleanup keepsteps output ;;
   yield_final outdir) w <> Fuel w'.
Proof.
  intros H.
  apply bind_fuel in H. destruct H as [H|(l1 & w1 & _ & H)].
  { destruct (gwcalc_spec l w) as [E|(rq & E & _)]; congruence. }
  apply bind_fuel in H. destruct H as [H|(? & w2 & _ & H)].
  { exact (check_converged_not_fuel _ _ _ _ H). }
  apply bind_fuel in H. destruct H as [H|(out & w3 & _ & H)].
  { rewrite static_step_spec in H. discriminate. }
  apply bind_fuel in H. destruct H as [H|(? & w4 & _ & H)].
  { exact (cleanup_not_fuel _ _ _ _ H). }
  discriminate.
Qed.

(** The ceilings of the two relaxation loops, for the whole run. *)
Lemma relax_run_ceilings (keepsteps : bool) (structure : Structure) (fuel : nat)
    (dirs : list string) :
  (0 < maxcalls)%Z ->
  let r := relax_run calc vasp outdir first_trial maxcalls nofail kwargs
                     is_converged keepsteps structure fuel (mkWorld [] dirs) in
  (Z.of_nat (steps CellShape (log (world_of r))) <= maxcalls)%Z
  /\ (Z.of_nat (steps Ionic (log (world_of r))) <= maxcalls + 1)%Z
  /\ ((maxcalls < Z.of_nat fuel)%Z -> forall w', r <> Fuel w').
Proof.
  intros Hpos r.
  assert (Hr : r = relax_run calc vasp outdir first_trial maxcalls nofail kwargs
                     is_converged keepsteps structure fuel (mkWorld [] dirs))
    by reflexivity.
  clearbody r. unfold relax_run, cellshape_loop, ionic_loop in Hr.
  set (l0 := mkLocals 0 None structure (first_trial ∪ kwargs)) in Hr.
  set (w0 := mkWorld [] dirs) in Hr.
  pose proof (relax_loop_steps CellShape maxcalls "cellshape" "relax_cellshape"
                (relaxation vasp) fuel Hpos l0 w0) as H1.
  pose proof (relax_loop_fuel CellShape maxcalls "cellshape" "relax_cellshape"
                (relaxation vasp) fuel Hpos l0 w0) as F1.
  cbv zeta in H1. destruct H1 as (H1a & H1b & H1c).
  specialize (H1b Ionic eq_refl). unfold same_steps in H1b.
  change (steps CellShape (log w0)) with 0 in *.
  change (steps Ionic (log w0)) with 0 in *.
  change (nb_steps l0) with 0 in *.
  unfold bind at 1 in Hr.
  destruct (relax_loop CellShape maxcalls "cellshape" "relax_cellshape"
              (relaxation vasp) fuel l0 w0) as [l1 w1|e w1|w1] eqn:E1;
    cbn [world_of] in *.
  2:{ subst r. cbn [world_of]. split; [lia|]. split; [lia|]. discriminate. }
  2:{ subst r. cbn [world_of]. split; [lia|]. split; [lia|].
      intros Hf w' _. apply (F1 w1); [lia | reflexivity]. }
  destruct (H1c l1 w1 eq_refl) as (Hnb1 & Hle1).
  unfold bind at 1 in Hr.
  pose proof (check_converged_world "cell-shape" l1 w1) as Hc.
  pose proof (check_converged_not_fuel "cell-shape" l1 w1) as Fc.
  destruct (check_converged "cell-shape" l1 w1) as [[] wc|e wc|wc];
    cbn [world_of] in *; subst wc.
  2:{ subst r. cbn [world_of]. split; [lia|]. split; [lia|]. discriminate. }
  2:{ exfalso. exact (Fc w1 eq_refl). }
  pose proof (relax_loop_steps Ionic (maxcalls + 1) "ionic" "relax_ions" "ionic"
                fuel Hpos l1 w1) as H2.
  pose proof (relax_loop_fuel Ionic (maxcalls + 1) "ionic" "relax_ions" "ionic"
                fuel Hpos l1 w1) as F2.
  cbv zeta in H2. destruct H2 as (H2a & H2b & H2c).
  specialize (H2b CellShape eq_refl). unfold same_steps in H2b.
  unfold bind at 1 in Hr.
  destruct (relax_loop Ionic (maxcalls + 1) "ionic" "relax_ions" "ionic"
              fuel l1 w1) as [l2 w2|e w2|w2] eqn:E2;
    cbn [world_of] in *.
  2:{ subst r. cbn [world_of]. split; [lia|]. split; [lia|]. discriminate. }
  2:{ subst r. cbn [world_of]. split; [lia|]. split; [lia|].
      intros Hf w' _. apply (F2 w2); [lia | reflexivity]. }
  pose proof (relax_tail_same_steps CellShape keepsteps l2 w2 eq_refl eq_refl) as T1.
  pose proof (relax_tail_same_steps Ionic keepsteps l2 w2 eq_refl eq_refl) as T2.
  unfold same_steps in T1, T2. rewrite <- Hr in T1, T2.
  split; [lia|]. split; [lia|].
  intros _ w'. rewrite Hr. apply relax_tail_not_fuel.
Qed.

End StagedFacts.

(** C3.  With a positive [maxcalls], one run of [iter_relax] asks for at
    most [maxcalls] cell-shape steps and at most [maxcalls + 1] ionic
    steps, whatever the functional answers and however the run ends; and
    with more fuel than [maxcalls] the run does end. *)
Theorem C3_call_ceilings (calc : string -> extractor) (vasp : Vasp)
    (structure : Structure) (outdir : string)
    (first_trial : option (gmap string pyval)) (maxcalls : Z)
    (keepsteps nofail : bool) (convergence : criterion) (minrelsteps : Z)
    (kwargs : gmap string pyval) (fuel : nat) (dirs : list string) :
  (0 < maxcalls)%Z ->
  let r := iter_relax calc vasp structure outdir first_trial maxcalls keepsteps
                      nofail convergence minrelsteps kwargs fuel (mkWorld [] dirs) in
  (Z.of_nat (steps CellShape (log (world_of r))) <= maxcalls)%Z
  /\ (Z.of_nat (steps Ionic (log (world_of r))) <= maxcalls + 1)%Z
  /\ ((maxcalls < Z.of_nat fuel)%Z -> forall w', r <> Fuel w').
Proof.
  intros Hpos. unfold iter_relax, bind, lift.
  destruct (_get_is_converged vasp structure convergence minrelsteps) as [e|P].
  - unfold raise, steps. simpl. split; [lia|]. split; [lia|]. discriminate.
  - unfold ret. apply relax_run_ceilings. exact Hpos.
Qed.

Lemma C3_call_ceilings_witness :
  (0 < 2)%Z
  /\ (let r := iter_relax restless demo_vasp one_atom "out" None 2 true true CNone
                          (-1) ∅ 5 (mkWorld [] []) in
      (Z.of_nat (steps CellShape (log (world_of r))) <= 2)%Z
      /\ (Z.of_nat (steps Ionic (log (world_of r))) <= 2 + 1)%Z
      /\ ((2 < Z.of_nat 5)%Z -> forall w', r <> Fuel w')).
Proof.
  split; [lia|].
  apply (C3_call_ceilings restless demo_vasp one_atom "out" None 2 true true CNone
           (-1) ∅ 5 []).
  lia.
Defined.

(** Both ceilings are reached: a run that never converges and is told not
    to fail makes [maxcalls] cell-shape steps, and with no cell-shape
    phase it makes [maxcalls + 1] ionic steps. *)
Example ceilings_reached :
  let r1 := iter_relax restless demo_vasp one_atom "out" None 2 true true CNone
                       (-1) ∅ 5 (mkWorld [] []) in
  let r2 := iter_relax restless ionic_vasp one_atom "out" None 2 true true CNone
                       (-1) ∅ 5 (mkWorld [] []) in
  steps CellShape (log (world_of r1)) = 2
  /\ steps Ionic (log (world_of r1)) = 1
  /\ steps CellShape (log (world_of r2)) = 0
  /\ steps Ionic (log (world_of r2)) = 3.
Proof. vm_compute. repeat split. Qed.

(** ** Resuming from the preceding result *)

Section ChainFacts.

Variable calc : string -> extractor.
Variable check : Phase -> bool.

Lemma latest_app (p : option extractor) (a b : list event) :
  latest calc p (a ++ b) = latest calc (latest calc p a) b.
Proof.
  revert p. induction a as [|[ph rq|dir] a IH]; intros p; simpl; auto.
Qed.

Lemma chained_app (p : option extractor) (a b : list event) :
  chained calc check p (a ++ b)
  <-> chained calc check p a /\ chained calc check (latest calc p a) b.
Proof.
  revert p. induction a as [|[ph rq|dir] a IH]; intros p; simpl.
  - tauto.
  - rewrite IH. tauto.
  - apply IH.
Qed.

Lemma keeps_chain_bind {A B} (m : M A) (k : A -> M B) (o : option extractor)
    (mid : A -> option extractor) (post : B -> option extractor) :
  keeps_chain calc check m o mid ->
  (forall a, keeps_chain calc check (k a) (mid a) post) ->
  keeps_chain calc check (bind m k) o post.
Proof.
  intros Hm Hk w Hc Ho. unfold bind.
  destruct (Hm w Hc Ho) as [Hc1 Ho1].
  destruct (m w) as [a w1|e w1|w1]; simpl in *; [|split; [assumption|discriminate]..].
  apply (Hk a w1 Hc1). symmetry. symmetry. apply Ho1. reflexivity.
Qed.

(** A computation that leaves the log alone. *)
Lemma keeps_chain_quiet {A} (m : M A) (o : option extractor) :
  (forall w, log (world_of (m w)) = log w) ->
  keeps_chain calc check m o (fun _ => o).
Proof.
  intros Hq w Hc Ho. split.
  - rewrite Hq. exact Hc.
  - intros a w' E. pose proof (Hq w) as H. rewrite E in H. simpl in H.
    rewrite H. exact Ho.
Qed.

Lemma keeps_chain_ask (ph : Phase) (rq : request) (o : option extractor) :
  (check ph = true -> r_restart rq = o) ->
  keeps_chain calc check (vasp_iter ph rq) o
              (fun _ => Some (Extract calc (r_outdir rq))).
Proof.
  intros Hr w Hc Ho. unfold vasp_iter. simpl. split.
  - apply chained_app. split; [exact Hc|]. simpl. rewrite <- Ho. tauto.
  - intros a w' E. injection E as _ <-. simpl. rewrite latest_app. reflexivity.
Qed.

Lemma keeps_chain_final (dir : string) (o : option extractor) :
  keeps_chain calc check (yield_final dir) o (fun _ => o).
Proof.
  intros w Hc Ho. unfold yield_final. simpl. split.
  - apply chained_app. split; [exact Hc|]. simpl. exact I.
  - intros a w' E. injection E as _ <-. simpl. rewrite latest_app. simpl. exact Ho.
Qed.

Lemma keeps_chain_post {A} (m : M A) (o : option extractor)
    (post post' : A -> option extractor) :
  (forall a, post a = post' a) ->
  keeps_chain calc check m o post -> keeps_chain calc check m o post'.
Proof.
  intros He Hm w Hc Ho. destruct (Hm w Hc Ho) as [H1 H2]. split; [exact H1|].
  intros a w' E. rewrite <- He. exact (H2 a w' E).
Qed.

Lemma keeps_chain_ret {A} (a : A) (o : option extractor)
    (post : A -> option extractor) :
  post a = o -> keeps_chain calc check (ret a) o post.
Proof.
  intros Hp w Hc Ho. split; [exact Hc|].
  intros a' w' E. injection E as <- <-. rewrite Hp. exact Ho.
Qed.

Lemma keeps_chain_resumes {A} (m : M A) (o : option extractor)
    (post : A -> option extractor) :
  keeps_chain calc check m o post -> resumes calc check m o.
Proof. intros Hm w Hc Ho. apply (Hm w Hc Ho). Qed.

Lemma resumes_bind {A B} (m : M A) (k : A -> M B) (o : option extractor)
    (mid : A -> option extractor) :
  keeps_chain calc check m o mid ->
  (forall a, resumes calc check (k a) (mid a)) ->
  resumes calc check (bind m k) o.
Proof.
  intros Hm Hk w Hc Ho. unfold bind.
  destruct (Hm w Hc Ho) as [Hc1 Ho1].
  destruct (m w) as [a w1|e w1|w1]; simpl in *; try assumption.
  apply (Hk a w1 Hc1). apply Ho1. reflexivity.
Qed.

Lemma keeps_chain_stop {A} (o : option extractor) (post : A -> option extractor) :
  keeps_chain calc check (@out_of_fuel A) o post.
Proof. intros w Hc Ho. split; [exact Hc|discriminate]. Qed.

Section StagedChain.

Variable vasp : Vasp.
Variable outdir : string.
Variable first_trial : gmap string pyval.
Variable maxcalls : Z.
Variable nofail : bool.
Variable kwargs : gmap string pyval.
Variable is_converged : policy.

Lemma relax_body_chain (ph : Phase) (sub rel : string) (l : locals) :
  keeps_chain calc check
    (relax_body calc outdir first_trial kwargs is_converged ph sub rel l)
    (output l) (fun r => output (fst r)).
Proof.
  intros w Hc Ho.
  pose proof (relax_body_spec calc outdir first_trial kwargs is_converged
                ph sub rel l w) as Hb.
  cbv zeta in Hb.
  assert (Hnew : chained calc check None
                   (log (asked ph (body_request outdir sub rel l) w))).
  { simpl. apply chained_app. split; [exact Hc|]. simpl. rewrite <- Ho. tauto. }
  destruct (relax_body _ _ _ _ _ _ _ _ _ _) as [[l1 brk] w1|e w1|w1];
    [| |contradiction].
  - destruct Hb as (-> & _ & Hout & _). split; [exact Hnew|].
    intros a w' E. injection E as <- <-. simpl. rewrite latest_app. exact Hout.
  - destruct Hb as (-> & _). split; [exact Hnew|discriminate].
Qed.

Lemma relax_loop_chain (ph : Phase) (ceiling : Z) (word sub rel : string)
    (fuel : nat) :
  forall l : locals,
    keeps_chain calc check
      (relax_loop calc vasp outdir first_trial maxcalls kwargs is_converged
                  ph ceiling word sub rel fuel l)
      (output l) output.
Proof.
  induction fuel as [|fuel IH]; intros l; simpl;
    destruct (more_calls maxcalls ceiling (nb_steps l) && _);
    try (apply keeps_chain_ret; reflexivity).
  - apply keeps_chain_stop.
  - eapply keeps_chain_bind; [apply relax_body_chain|].
    intros [l1 brk]. simpl. destruct brk.
    + apply keeps_chain_ret. reflexivity.
    + apply IH.
Qed.

Lemma gwcalc_chain (l : locals) :
  keeps_chain calc check (gwcalc calc vasp outdir maxcalls l) (output l) output.
Proof.
  intros w Hc Ho.
  destruct (gwcalc_spec calc vasp outdir maxcalls l w) as [E|(rq & E & Hr)];
    rewrite E; simpl.
  - split; [exact Hc|]. intros a w' E'. injection E' as <- <-. exact Ho.
  - split.
    + apply chained_app. split; [exact Hc|]. simpl. rewrite <- Ho. tauto.
    + intros a w' E'. injection E' as <- <-. simpl. rewrite latest_app. reflexivity.
Qed.

Lemma check_converged_chain (what : string) (l : locals) (o : option extractor) :
  keeps_chain calc check (check_converged maxcalls nofail is_converged what l)
              o (fun _ => o).
Proof.
  apply keeps_chain_quiet. intros w. rewrite check_converged_world. reflexivity.
Qed.

Lemma static_step_chain (l : locals) :
  keeps_chain calc check (static_step calc outdir kwargs l) (output l)
              (fun out => Some out).
Proof.
  intros w Hc Ho. rewrite static_step_spec. simpl. split.
  - apply chained_app. split; [exact Hc|]. simpl. rewrite <- Ho. tauto.
  - intros a w' E. injection E as <- <-. simpl. rewrite latest_app. reflexivity.
Qed.

Lemma cleanup_chain (keepsteps : bool) (out : extractor) (o : option extractor) :
  keeps_chain calc check (cleanup outdir keepsteps out) o (fun _ => o).
Proof. apply keeps_chain_quiet. intros w. apply cleanup_log. Qed.

Lemma relax_run_resumes (keepsteps : bool) (structure : Structure) (fuel : nat) :
  resumes calc check
    (relax_run calc vasp outdir first_trial maxcalls nofail kwargs is_converged
               keepsteps structure fuel)
    None.
Proof.
  unfold relax_run, cellshape_loop, ionic_loop.
  eapply resumes_bind;
    [apply (relax_loop_chain _ _ _ _ _ fuel (mkLocals 0 None _ _))|].
  intros l1. eapply resumes_bind; [apply check_converged_chain|]. intros u1.
  eapply resumes_bind; [apply relax_loop_chain|].
  intros l2. eapply resumes_bind; [apply gwcalc_chain|].
  intros l3. eapply resumes_bind; [apply check_converged_chain|]. intros u2.
  eapply resumes_bind; [apply static_step_chain|].
  intros out. eapply resumes_bind; [apply cleanup_chain|]. intros u3.
  eapply keeps_chain_resumes. apply keeps_chain_final.
Qed.

End StagedChain.

End ChainFacts.

(** ** The training variant *)

Lemma log_keeps_trans (P : event -> Prop) (w1 w2 w3 : world) :
  log_keeps P w1 w2 -> log_keeps P w2 w3 -> log_keeps P w1 w3.
Proof. unfold log_keeps. auto. Qed.

Lemma log_keeps_asked (P : event -> Prop) (ph : Phase) (rq : request) (w : world) :
  P (Step ph rq) -> log_keeps P w (asked ph rq w).
Proof.
  intros Hp Hw. simpl. apply Forall_app. split; [exact Hw|].
  constructor; [exact Hp|constructor].
Qed.

Lemma size_zero_union (first_trial kwargs : gmap string pyval) :
  (if negb (size first_trial =? 0) then kwargs else first_trial ∪ kwargs) = kwargs.
Proof.
  destruct (size first_trial =? 0) eqn:E; simpl; [|reflexivity].
  apply Nat.eqb_eq in E. apply map_size_empty_iff in E. subst first_trial.
  apply map_empty_union.
Qed.

Section TrainingFacts.

Variable calc : string -> extractor.
Variable vasp : Vasp.
Variable outdir : string.
Variable first_trial : gmap string pyval.
Variable maxcalls : Z.
Variable nofail : bool.
Variable kwargs : gmap string pyval.
Variable is_converged : policy.

(** One cycle: a cell-shape call with [first_trial] over [kwargs],
    resumed from [output]; the policy is asked about its result; then,
    unless the policy raised, an ionic call with [kwargs], resumed from
    that result. *)
Lemma training_body_spec (l : locals) (w : world) :
  let rq1 := mkRequest (relaxed_structure l)
                       (join3 outdir "relax_cellshape" (str (nb_steps l)))
                       (output l) (Some (relaxation vasp)) (first_trial ∪ kwargs) in
  let out1 := Extract calc (r_outdir rq1) in
  let rq2 := mkRequest (structure out1)
                       (join3 outdir "relax_ions" (str (S (nb_steps l))))
                       (Some out1) (Some "ionic") kwargs in
  let out2 := Extract calc (r_outdir rq2) in
  match training_body calc vasp outdir first_trial kwargs is_converged l w with
  | Ok (l', brk) w' =>
      w' = asked Ionic rq2 (asked CellShape rq1 w)
      /\ nb_steps l' = S (S (nb_steps l))
      /\ output l' = Some out2
      /\ is_converged (Some out1) = inr brk
  | Raise e w' =>
      w' = asked CellShape rq1 w /\ is_converged (Some out1) = inl e
  | Fuel _ => False
  end.
Proof.
  intros rq1 out1 rq2 out2. subst rq1 out1 rq2 out2.
  unfold training_body, bind, vasp_iter.
  rewrite did_not_complete_ok. unfold lift, raise, ret, asked. simpl.
  destruct (is_converged _) as [e|b]; simpl; [auto|].
  rewrite did_not_complete_ok. rewrite size_zero_union. simpl. auto.
Qed.

Lemma training_loop_params (fuel : nat) :
  forall (l : locals) (w : world),
    log_keeps (training_params first_trial kwargs) w
      (world_of (training_loop calc vasp outdir first_trial maxcalls kwargs
                               is_converged fuel l w)).
Proof.
  induction fuel as [|fuel IH]; intros l w; simpl;
    destruct (more_calls maxcalls maxcalls (nb_steps l));
    try (intros H; exact H).
  unfold bind. pose proof (training_body_spec l w) as Hb. cbv zeta in Hb.
  destruct (training_body _ _ _ _ _ _ _ _) as [[l1 brk] w1|e w1|w1];
    [| |contradiction].
  - destruct Hb as (-> & _). simpl.
    assert (H2 : log_keeps (training_params first_trial kwargs) w
                   (asked Ionic
                      (mkRequest
                         (structure (Extract calc
                            (join3 outdir "relax_cellshape" (str (nb_steps l)))))
                         (join3 outdir "relax_ions" (str (S (nb_steps l))))
                         (Some (Extract calc
                            (join3 outdir "relax_cellshape" (str (nb_steps l)))))
                         (Some "ionic") kwargs)
                      (asked CellShape
                         (mkRequest (relaxed_structure l)
                            (join3 outdir "relax_cellshape" (str (nb_steps l)))
                            (output l) (Some (relaxation vasp))
                            (first_trial ∪ kwargs)) w))).
    { eapply log_keeps_trans; apply log_keeps_asked; reflexivity. }
    destruct brk.
    + exact H2.
    + eapply log_keeps_trans; [exact H2|apply IH].
  - destruct Hb as (-> & _). simpl. apply log_keeps_asked. reflexivity.
Qed.

Lemma training_run_params (structure : Structure) (fuel : nat) (w : world) :
  log_keeps (training_params first_trial kwargs) w
    (world_of (training_run calc vasp outdir first_trial maxcalls nofail kwargs
                            is_converged structure fuel w)).
Proof.
  unfold training_run. revert w.
  apply bind_keeps; [apply log_keeps_trans|apply training_loop_params|intros l].
  apply bind_keeps; [apply log_keeps_trans| |intros u1].
  { intros w. rewrite check_converged_world. intros H; exact H. }
  apply bind_keeps; [apply log_keeps_trans| |intros u2].
  { intros w. rewrite check_converged_world. intros H; exact H. }
  apply bind_keeps; [apply log_keeps_trans| |intros out].
  { intros w. rewrite static_step_spec. apply log_keeps_asked. reflexivity. }
  intros w H. unfold yield_final. simpl. apply Forall_app. split; [exact H|].
  constructor; [exact I|constructor].
Qed.

End TrainingFacts.

(** C8, as amended.  In a run of [iter_training] the overrides of
    [first_trial] are laid over [kwargs] in the cell-shape call of every
    cycle, and every ionic call, like the final static call, is made with
    [kwargs] alone. *)
Theorem C8_training_parameters (calc : string -> extractor) (vasp : Vasp)
    (structure : Structure) (outdir : string)
    (first_trial : option (gmap string pyval)) (maxcalls : Z) (nofail : bool)
    (convergence : criterion) (minrelsteps : Z) (kwargs : gmap string pyval)
    (fuel : nat) (dirs : list string) :
  Forall (training_params (or_empty first_trial) kwargs)
         (log (world_of (iter_training calc vasp structure outdir first_trial
                           maxcalls nofail convergence minrelsteps kwargs fuel
                           (mkWorld [] dirs)))).
Proof.
  unfold iter_training, bind, lift.
  destruct (_get_is_converged vasp structure convergence (-1)) as [e|P].
  - constructor.
  - unfold ret. apply training_run_params. constructor.
Qed.

(** C8 as stated fails from the second cycle on: the third call of this
    run is the second cell-shape call, in [relax_cellshape/2], and it
    still carries the override. *)
Lemma C8_every_cycle_counterexample :
  let r := iter_training restless demo_vasp one_atom "out" (Some two_ionic_steps)
                         4 true CNone (-1) ∅ 9 (mkWorld [] []) in
  exists rq,
    nth_error (log (world_of r)) 2 = Some (Step CellShape rq)
    /\ r_outdir rq = "out/relax_cellshape/2"
    /\ r_params rq = two_ionic_steps
    /\ r_params rq <> (∅ : gmap string pyval).
Proof.
  vm_compute. eexists. split; [reflexivity|].
  split; [reflexivity|]. split; [reflexivity|]. discriminate.
Qed.

(** ** Resuming, in the training variant and in the epitaxial search *)

Section MoreChains.

Variable calc : string -> extractor.
Variable check : Phase -> bool.

Lemma training_body_chain (vasp : Vasp) (outdir : string)
    (first_trial kwargs : gmap string pyval) (is_converged : policy) (l : locals) :
  keeps_chain calc check
    (training_body calc vasp outdir first_trial kwargs is_converged l)
    (output l) (fun r => output (fst r)).
Proof.
  intros w Hc Ho.
  pose proof (training_body_spec calc vasp outdir first_trial kwargs is_converged l w)
    as Hb.
  cbv zeta in Hb.
  destruct (training_body _ _ _ _ _ _ _ _) as [[l1 brk] w1|e w1|w1];
    [| |contradiction].
  - destruct Hb as (-> & _ & Hout & _). split.
    + simpl. rewrite <- app_assoc. apply chained_app. split; [exact Hc|].
      simpl. rewrite <- Ho. tauto.
    + intros a w' E. injection E as <- <-. simpl.
      rewrite !latest_app. exact Hout.
  - destruct Hb as (-> & _). split; [|discriminate].
    simpl. apply chained_app. split; [exact Hc|]. simpl. rewrite <- Ho. tauto.
Qed.

Lemma training_loop_chain (vasp : Vasp) (outdir : string)
    (first_trial : gmap string pyval) (maxcalls : Z) (kwargs : gmap string pyval)
    (is_converged : policy) (fuel : nat) :
  forall l : locals,
    keeps_chain calc check
      (training_loop calc vasp outdir first_trial maxcalls kwargs is_converged fuel l)
      (output l) output.
Proof.
  induction fuel as [|fuel IH]; intros l; simpl;
    destruct (more_calls maxcalls maxcalls (nb_steps l));
    try (apply keeps_chain_ret; reflexivity).
  - apply keeps_chain_stop.
  - eapply keeps_chain_bind; [apply training_body_chain|].
    intros [l1 brk]. simpl. destruct brk.
    + apply keeps_chain_ret. reflexivity.
    + apply IH.
Qed.

Lemma training_run_resumes (vasp : Vasp) (outdir : string)
    (first_trial : gmap string pyval) (maxcalls : Z) (nofail : bool)
    (kwargs : gmap string pyval) (is_converged : policy) (structure : Structure)
    (fuel : nat) :
  resumes calc check
    (training_run calc vasp outdir first_trial maxcalls nofail kwargs is_converged
                  structure fuel)
    None.
Proof.
  unfold training_run.
  eapply resumes_bind;
    [apply (training_loop_chain _ _ _ _ _ _ fuel (mkLocals 0 None _ _))|].
  intros l1. eapply resumes_bind; [apply check_converged_chain|]. intros u1.
  eapply resumes_bind; [apply check_converged_chain|]. intros u2.
  eapply resumes_bind; [apply static_step_chain|].
  intros out. eapply keeps_chain_resumes. apply keeps_chain_final.
Qed.

Section EpitaxialChain.

Variable fmt : Q -> string.
Variable structure0 : Structure.
Variable outdir : string.
Variable direction : vec3.
Variable epiconv : Q.
Variable initstep : Q.
Variable kwargs : gmap string pyval.

Local Abbreviation trial' := (trial calc fmt structure0 outdir direction kwargs).

Lemma trial_chain (x : Q) (calcs : list extractor) :
  keeps_chain calc check (trial' x calcs) (last calcs) (fun e => Some e).
Proof.
  unfold trial. eapply keeps_chain_bind.
  - apply keeps_chain_ask. intros _. reflexivity.
  - intros u. apply keeps_chain_ret. reflexivity.
Qed.

Lemma last_calc_chain (calcs : list extractor) (o : option extractor) :
  keeps_chain calc check (last_calc calcs) o (fun _ => o).
Proof.
  apply keeps_chain_quiet. intros w. unfold last_calc.
  destruct (last calcs); reflexivity.
Qed.

Lemma bracket_loop_chain (s : Q) (fuel : nat) :
  forall b : bracket,
    keeps_chain calc check
      (bracket_loop calc fmt structure0 outdir direction initstep kwargs s fuel b)
      (last (allcalcs b)) (fun b' => last (allcalcs b')).
Proof.
  induction fuel as [|fuel IH]; intros b; simpl.
  - eapply keeps_chain_bind; [apply last_calc_chain|]. intros e. cbv beta.
    destruct (Qltb 0 _).
    + apply keeps_chain_stop.
    + apply keeps_chain_ret. reflexivity.
  - eapply keeps_chain_bind; [apply last_calc_chain|]. intros e. cbv beta.
    destruct (Qltb 0 _).
    + eapply keeps_chain_bind; [apply trial_chain|]. intros e'. cbv beta.
      match goal with
      | |- keeps_chain _ _ (bracket_loop _ _ _ _ _ _ _ _ _ ?b') _ _ =>
          pose proof (IH b') as H
      end.
      cbn [allcalcs] in H. rewrite last_snoc in H. exact H.
    + apply keeps_chain_ret. reflexivity.
Qed.

Lemma bisect_body_chain (s : Q) (b : bracket) :
  keeps_chain calc check
    (bisect_body calc fmt structure0 outdir direction kwargs s b)
    (last (allcalcs b)) (fun b' => last (allcalcs b')).
Proof.
  unfold bisect_body.
  eapply keeps_chain_bind; [apply trial_chain|]. intros emid. cbv beta zeta.
  destruct (Qltb 0 _); apply keeps_chain_ret; cbn [allcalcs];
    apply last_snoc.
Qed.

Lemma bisect_loop_chain (s : Q) (fuel : nat) :
  forall b : bracket,
    keeps_chain calc check
      (bisect_loop calc fmt structure0 outdir direction epiconv kwargs s fuel b)
      (last (allcalcs b)) (fun b' => last (allcalcs b')).
Proof.
  induction fuel as [|fuel IH]; intros b; simpl;
    destruct (keep_bisecting structure0 epiconv b);
    try (apply keeps_chain_ret; reflexivity).
  - apply keeps_chain_stop.
  - eapply keeps_chain_bind; [apply bisect_body_chain|].
    intros b'. apply IH.
Qed.

Lemma first_bracket_chain :
  keeps_chain calc check
    (first_bracket calc fmt structure0 outdir direction initstep kwargs)
    None (fun sb => last (allcalcs (snd sb))).
Proof.
  unfold first_bracket.
  eapply keeps_chain_bind; [apply (trial_chain 0 [])|]. intros e0. cbv beta zeta.
  eapply keeps_chain_bind; [apply last_calc_chain|]. intros e. cbv beta.
  eapply keeps_chain_bind.
  - pose proof (trial_chain
                  (signed_step initstep
                     (if Qltb 0 (component direction (stress e)) then 1%Q else (- (1))%Q))
                  ([] ++ [e0])) as H.
    simpl in H. exact H.
  - intros e1. apply keeps_chain_ret. cbn [snd allcalcs]. apply last_snoc.
Qed.

(** The search steps of [iter_epitaxial] are chained; nothing is asked of
    the static step. *)
Lemma iter_epitaxial_resumes (fuel : nat) :
  check Static = false ->
  resumes calc check
    (iter_epitaxial calc fmt structure0 outdir direction epiconv initstep kwargs fuel)
    None.
Proof.
  intros Hs. unfold iter_epitaxial.
  eapply resumes_bind; [apply first_bracket_chain|]. intros [s b0]. cbn [fst snd].
  eapply resumes_bind; [apply bracket_loop_chain|]. intros b1. cbv beta.
  eapply resumes_bind; [apply bisect_loop_chain|]. intros b2. cbv beta zeta.
  eapply resumes_bind.
  - apply keeps_chain_ask. rewrite Hs. discriminate.
  - intros u. eapply keeps_chain_resumes. apply keeps_chain_final.
Qed.

(** When the search ends, the static step is resumed from [efinal], the
    end of the final bracket with the lower energy. *)
Lemma iter_epitaxial_static (fuel : nat) (w w' : world) :
  iter_epitaxial calc fmt structure0 outdir direction epiconv initstep kwargs fuel w
  = Ok tt w' ->
  exists s b0 w0 b1 w1 b2 w2 rq,
    first_bracket calc fmt structure0 outdir direction initstep kwargs w
    = Ok (s, b0) w0
    /\ bracket_loop calc fmt structure0 outdir direction initstep kwargs s fuel b0 w0
       = Ok b1 w1
    /\ bisect_loop calc fmt structure0 outdir direction epiconv kwargs s fuel b1 w1
       = Ok b2 w2
    /\ log w' = (log w2 ++ [Step Static rq; Final outdir])%list
    /\ r_restart rq = Some (efinal b2)
    /\ r_structure rq = structure (efinal b2).
Proof.
  unfold iter_epitaxial. unfold bind at 1.
  destruct (first_bracket _ _ _ _ _ _ _ w) as [[s b0] w0|e w0|w0] eqn:E0;
    [|discriminate..].
  cbn [fst snd]. unfold bind at 1.
  destruct (bracket_loop _ _ _ _ _ _ _ s fuel b0 w0) as [b1 w1|e w1|w1] eqn:E1;
    [|discriminate..].
  unfold bind at 1.
  destruct (bisect_loop _ _ _ _ _ _ _ s fuel b1 w1) as [b2 w2|e w2|w2] eqn:E2;
    [|discriminate..].
  unfold bind, vasp_iter, yield_final. intros E. injection E as <-.
  exists s, b0, w0, b1, w1, b2, w2. eexists.
  split; [reflexivity|]. split; [exact E1|]. split; [exact E2|].
  split; [simpl; rewrite <- app_assoc; reflexivity|].
  split; reflexivity.
Qed.

End EpitaxialChain.

End MoreChains.

(** C9, as amended.  In one run the steps are asked for one after the
    other, and:
    - in [iter_relax] and in [iter_training] every step, the final static
      one included, is resumed from the result of the step asked for just
      before it, and the first from nothing;
    - in [iter_epitaxial] the same holds of every step of the search;
      the final static step is resumed from [efinal], the end of the
      final bracket with the lower total energy. *)
Theorem C9_resume_chain (calc : string -> extractor) (vasp : Vasp)
    (structure0 : Structure) (outdir : string)
    (first_trial : option (gmap string pyval)) (maxcalls : Z)
    (keepsteps nofail : bool) (convergence : criterion) (minrelsteps : Z)
    (kwargs : gmap string pyval) (fmt : Q -> string) (direction : vec3)
    (epiconv initstep : Q) (fuel : nat) (dirs : list string) :
  let w := mkWorld [] dirs in
  chained calc every_phase None
    (log (world_of (iter_relax calc vasp structure0 outdir first_trial maxcalls
                       keepsteps nofail convergence minrelsteps kwargs fuel w)))
  /\ chained calc every_phase None
       (log (world_of (iter_training calc vasp structure0 outdir first_trial maxcalls
                         nofail convergence minrelsteps kwargs fuel w)))
  /\ chained calc search_phase None
       (log (world_of (iter_epitaxial calc fmt structure0 outdir direction epiconv
                         initstep kwargs fuel w)))
  /\ (forall w',
        iter_epitaxial calc fmt structure0 outdir direction epiconv initstep kwargs
                       fuel w = Ok tt w' ->
        exists s b0 w0 b1 w1 b2 w2 rq,
          first_bracket calc fmt structure0 outdir direction initstep kwargs w
          = Ok (s, b0) w0
          /\ bracket_loop calc fmt structure0 outdir direction initstep kwargs s
                          fuel b0 w0 = Ok b1 w1
          /\ bisect_loop calc fmt structure0 outdir direction epiconv kwargs s
                         fuel b1 w1 = Ok b2 w2
          /\ log w' = (log w2 ++ [Step Static rq; Final outdir])%list
          /\ r_restart rq = Some (efinal b2)
          /\ r_structure rq = structure (efinal b2)).
Proof.
  intros w. split; [|split; [|split]].
  - unfold iter_relax, bind, lift.
    destruct (_get_is_converged vasp structure0 convergence minrelsteps) as [e|P].
    + exact I.
    + unfold ret. apply relax_run_resumes; [exact I|reflexivity].
  - unfold iter_training, bind, lift.
    destruct (_get_is_converged vasp structure0 convergence (-1)) as [e|P].
    + exact I.
    + unfold ret. apply training_run_resumes; [exact I|reflexivity].
  - apply iter_epitaxial_resumes; [reflexivity|exact I|reflexivity].
  - intros w'. apply iter_epitaxial_static.
Qed.

Lemma C9_resume_chain_witness :
  let w := mkWorld [] [] in
  exists w',
    iter_epitaxial slope_calc demo_fmt one_atom "out" z_axis (1 # 10) (1 # 20) ∅ 5 w
    = Ok tt w'
    /\ exists s b0 w0 b1 w1 b2 w2 rq,
         first_bracket slope_calc demo_fmt one_atom "out" z_axis (1 # 20) ∅ w
         = Ok (s, b0) w0
         /\ bracket_loop slope_calc demo_fmt one_atom "out" z_axis (1 # 20) ∅ s
                         5 b0 w0 = Ok b1 w1
         /\ bisect_loop slope_calc demo_fmt one_atom "out" z_axis (1 # 10) ∅ s
                        5 b1 w1 = Ok b2 w2
         /\ log w' = (log w2 ++ [Step Static rq; Final "out"])%list
         /\ r_restart rq = Some (efinal b2)
         /\ r_structure rq = structure (efinal b2).
Proof.
  intros w. eexists. split; [vm_compute; reflexivity|].
  apply (C9_resume_chain slope_calc demo_vasp one_atom "out" None 2 true false CNone
           (-1) ∅ demo_fmt z_axis (1 # 10) (1 # 20) 5 []).
  vm_compute. reflexivity.
Defined.

(** C9 as stated fails on the static step of [iter_epitaxial].  The run
    asks for the strains 0 and 0.05, finds equal energies, and resumes
    the static step from the result at strain 0, which is not the result
    of the step asked for just before. *)
Lemma C9_epitaxial_static_counterexample :
  let r := iter_epitaxial level_calc demo_fmt one_atom "out" z_axis (1 # 10000)
                          (1 # 20) ∅ 5 (mkWorld [] []) in
  (exists rq1 rq2 rq3,
      log (world_of r) = [Step Ionic rq1; Step Ionic rq2; Step Static rq3; Final "out"]
      /\ r_outdir rq1 = "out/relax_ions/0.0000000000"
      /\ r_outdir rq2 = "out/relax_ions/0.0500000000"
      /\ r_restart rq3 = Some (Extract level_calc (r_outdir rq1))
      /\ r_restart rq3 <> Some (Extract level_calc (r_outdir rq2)))
  /\ ~ chained level_calc every_phase None (log (world_of r)).
Proof.
  split.
  - vm_compute. do 3 eexists. split; [reflexivity|].
    split; [reflexivity|]. split; [reflexivity|]. split; [reflexivity|].
    discriminate.
  - vm_compute. intros (_ & _ & H & _). specialize (H eq_refl). discriminate.
Qed.

(** ** The bracket of the epitaxial search *)

Section BracketFacts.

Variable calc : string -> extractor.
Variable fmt : Q -> string.
Variable structure0 : Structure.
Variable outdir : string.
Variable direction : vec3.
Variable epiconv : Q.
Variable initstep : Q.
Variable kwargs : gmap string pyval.

Local Abbreviation comp := (component direction).
Local Abbreviation threshold := (epiconv * inject_Z (Z.of_nat (len structure0)))%Q.

Lemma trial_spec (x : Q) (calcs : list extractor) (w : world) :
  trial calc fmt structure0 outdir direction kwargs x calcs w
  = Ok (Extract calc (join3 outdir "relax_ions" (fmt x)))
       (asked Ionic (mkRequest (change_structure structure0 direction x)
                               (join3 outdir "relax_ions" (fmt x))
                               (last calcs) None (search_kwargs kwargs)) w).
Proof. reflexivity. Qed.






End BracketFacts.




(** * Further properties of the module *)

(** ** The three closures of [_get_is_converged] *)

(** Whatever the criterion, the policy that is built is one of the three
    closures, and all three start with the same guards. *)
Lemma get_is_converged_guarded (vasp : Vasp) (structure : Structure)
    (convergence : criterion) (minrelsteps : Z) (P : policy) :
  _get_is_converged vasp structure convergence minrelsteps = inr P ->
  exists body, P = guarded minrelsteps body.
Proof.
  intros H. destruct convergence as [|f|c].
  - rewrite get_is_converged_none in H.
    destruct (Qltb 0 _); injection H as <-; eexists; reflexivity.
  - destruct (get_is_converged_callable vasp structure f minrelsteps) as [msg Hm].
    congruence.
  - rewrite get_is_converged_num in H.
    destruct (Qltb 0 _ && _); [discriminate|].
    destruct (Qltb 0 _); injection H as <-; eexists; reflexivity.
Qed.

(** Before any step, with no result yet, every policy answers
    converged. *)
Theorem policy_without_result (vasp : Vasp) (structure : Structure)
    (convergence : criterion) (minrelsteps : Z) (P : policy) :
  _get_is_converged vasp structure convergence minrelsteps = inr P ->
  P None = inr true.
Proof.
  intros H. destruct (get_is_converged_guarded _ _ _ _ _ H) as [body ->].
  reflexivity.
Qed.

Lemma policy_without_result_witness :
  _get_is_converged demo_vasp one_atom (CNum (- (1 # 100))) 3
  = inr (is_converged_force (- (1 # 100)) 3)
  /\ is_converged_force (- (1 # 100)) 3 None = inr true.
Proof.
  assert (H : _get_is_converged demo_vasp one_atom (CNum (- (1 # 100))) 3
              = inr (is_converged_force (- (1 # 100)) 3)) by reflexivity.
  split; [exact H|].
  exact (policy_without_result demo_vasp one_atom (CNum (- (1 # 100))) 3 _ H).
Defined.

(** A run that did not succeed makes every policy raise
    [ExternalRunFailed], whatever the criterion, the step number and the
    energies or forces found. *)
Theorem policy_failed_run (vasp : Vasp) (structure : Structure)
    (convergence : criterion) (minrelsteps : Z) (P : policy) (e : extractor) :
  _get_is_converged vasp structure convergence minrelsteps = inr P ->
  success e = false ->
  P (Some e) = inl (ExternalRunFailed "VASP calculation did not succeed.").
Proof.
  intros H Hs. destruct (get_is_converged_guarded _ _ _ _ _ H) as [body ->].
  unfold guarded. rewrite Hs. reflexivity.
Qed.

Lemma policy_failed_run_witness :
  let e := run_of "out/relax_cellshape/3" false [(-5)%Q; (-5)%Q] in
  (_get_is_converged demo_vasp one_atom CNone (-1)
   = inr (is_converged_energy (10 * ediff demo_vasp) (-1))
   /\ success e = false)
  /\ is_converged_energy (10 * ediff demo_vasp) (-1) (Some e)
     = inl (ExternalRunFailed "VASP calculation did not succeed.").
Proof.
  intros e.
  assert (H : _get_is_converged demo_vasp one_atom CNone (-1)
              = inr (is_converged_energy (10 * ediff demo_vasp) (-1)))
    by reflexivity.
  assert (Hs : success e = false) by reflexivity.
  split; [split; assumption|].
  exact (policy_failed_run demo_vasp one_atom CNone (-1) _ e H Hs).
Defined.

(** With a positive [minrelsteps], a successful result of a step whose
    number is below it is reported not converged, whatever the criterion
    and whatever the energies or forces. *)
Theorem policy_minrelsteps_gate (vasp : Vasp) (structure : Structure)
    (convergence : criterion) (minrelsteps : Z) (P : policy) (e : extractor)
    (i : Z) :
  _get_is_converged vasp structure convergence minrelsteps = inr P ->
  success e = true ->
  step_number e = inr i ->
  (0 < minrelsteps)%Z -> (i < minrelsteps)%Z ->
  P (Some e) = inr false.
Proof.
  intros H Hs Hi H0 H1. destruct (get_is_converged_guarded _ _ _ _ _ H) as [body ->].
  exact (guarded_closed _ _ _ _ Hs Hi H0 H1).
Qed.

Lemma policy_minrelsteps_gate_witness :
  (_get_is_converged demo_vasp one_atom (CNum 1) 3
   = inr (is_converged_energy (1 * inject_Z (Z.of_nat (len one_atom))) 3)
   /\ success first_step_flat = true
   /\ step_number first_step_flat = inr 1%Z
   /\ (0 < 3)%Z /\ (1 < 3)%Z)
  /\ is_converged_energy (1 * inject_Z (Z.of_nat (len one_atom))) 3
                         (Some first_step_flat) = inr false.
Proof.
  assert (H : _get_is_converged demo_vasp one_atom (CNum 1) 3
              = inr (is_converged_energy (1 * inject_Z (Z.of_nat (len one_atom))) 3))
    by reflexivity.
  assert (Hs : success first_step_flat = true) by reflexivity.
  assert (Hi : step_number first_step_flat = inr 1%Z) by reflexivity.
  assert (H0 : (0 < 3)%Z) by lia.
  assert (H1 : (1 < 3)%Z) by lia.
  split; [tauto|].
  exact (policy_minrelsteps_gate demo_vasp one_atom (CNum 1) 3 _ first_step_flat 1
           H Hs Hi H0 H1).
Defined.

(** ** The force criterion *)

Lemma Qmax_lt (x y t : Q) :
  (Qmax x y < t)%Q <-> (x < t)%Q /\ (y < t)%Q.
Proof.
  unfold Qmax. destruct (Qltb x y) eqn:E.
  - apply Qltb_lt in E. split.
    + intros H. split; [exact (Qlt_trans _ _ _ E H)|exact H].
    + tauto.
  - apply Qltb_ge in E. split.
    + intros H. split; [exact H|exact (Qle_lt_trans _ _ _ E H)].
    + tauto.
Qed.

Lemma fold_Qmax_lt (l : list Q) (x t : Q) :
  (fold_left Qmax l x < t)%Q <-> (x < t)%Q /\ Forall (fun y => (y < t)%Q) l.
Proof.
  revert x. induction l as [|y l IH]; intros x; simpl.
  - split; [intros H; split; [exact H|constructor]|tauto].
  - rewrite IH, Qmax_lt. split.
    + intros [[Hx Hy] Hl]. split; [exact Hx|constructor; assumption].
    + intros [Hx Hl]. inversion Hl; subst. tauto.
Qed.

Lemma abs_components_nil (f : list vec3) :
  abs_components f = [] <-> f = [].
Proof.
  destruct f as [|[[x y] z] f]; simpl; split; intros H; try reflexivity;
    discriminate.
Qed.

(** For a number that is not positive, the criterion is on the forces:
    a successful result past the [minrelsteps] gate is reported converged
    exactly when every component of every force is, in absolute value,
    below [|convergence|]; and with no force at all the policy raises the
    [ValueError] of numpy's [max]. *)
Theorem force_policy (vasp : Vasp) (structure : Structure) (c : Q)
    (minrelsteps : Z) (P : policy) (e : extractor) (i : Z) :
  (c <= 0)%Q ->
  _get_is_converged vasp structure (CNum c) minrelsteps = inr P ->
  success e = true ->
  step_number e = inr i ->
  (minrelsteps <= 0 \/ minrelsteps <= i)%Z ->
  (forces e = [] -> exists msg, P (Some e) = inl (ValueError msg))
  /\ (forces e <> [] ->
      exists b, P (Some e) = inr b
                /\ (b = true <-> Forall (fun x => (x < Qabs c)%Q)
                                        (abs_components (forces e)))).
Proof.
  intros Hc Hget Hs Hi Hgate.
  rewrite get_is_converged_num in Hget.
  assert (Ec : Qltb 0 c = false) by (apply Qltb_ge; exact Hc).
  rewrite Ec in Hget. cbv zeta in Hget. rewrite Ec in Hget. simpl in Hget.
  injection Hget as <-.
  unfold is_converged_force. rewrite (guarded_open _ _ _ i Hs Hi Hgate).
  unfold force_test. split.
  - intros Hf. rewrite Hf. simpl. eexists. reflexivity.
  - intros Hf. destruct (abs_components (forces e)) as [|x l] eqn:Ea.
    + apply abs_components_nil in Ea. contradiction.
    + eexists. split; [reflexivity|].
      rewrite Qltb_lt, fold_Qmax_lt. split.
      * intros [Hx Hl]. constructor; assumption.
      * intros H. inversion H; subst. tauto.
Qed.

Lemma force_policy_witness :
  let c := (- (1 # 100))%Q in
  let P := is_converged_force c (-1) in
  let e := mkExtractor "out/relax_ions/4" true one_atom [(-5)%Q] (-5)
                       [(1 # 1000, 0, - (1 # 200))%Q] no_stress in
  ((c <= 0)%Q
   /\ _get_is_converged demo_vasp one_atom (CNum c) (-1) = inr P
   /\ success e = true /\ step_number e = inr 5%Z
   /\ (-1 <= 0 \/ -1 <= 5)%Z)
  /\ ((forces e = [] -> exists msg, P (Some e) = inl (ValueError msg))
      /\ (forces e <> [] ->
          exists b, P (Some e) = inr b
                    /\ (b = true <-> Forall (fun x => (x < Qabs c)%Q)
                                            (abs_components (forces e))))).
Proof.
  intros c P e.
  assert (H1 : (c <= 0)%Q) by (vm_compute; discriminate).
  assert (H2 : _get_is_converged demo_vasp one_atom (CNum c) (-1) = inr P)
    by reflexivity.
  assert (H3 : success e = true) by reflexivity.
  assert (H4 : step_number e = inr 5%Z) by reflexivity.
  assert (H5 : (-1 <= 0 \/ -1 <= 5)%Z) by (left; lia).
  split; [tauto|].
  exact (force_policy demo_vasp one_atom c (-1) P e 5 H1 H2 H3 H4 H5).
Defined.

(** ** The step number read back from the directory *)

Lemma to_uint_nonnil (n : nat) : Nat.to_uint n <> Decimal.Nil.
Proof.
  intros E. pose proof (Unsigned.to_of (Nat.to_uint n)) as H.
  rewrite Unsigned.of_to, E in H. discriminate.
Qed.

Lemma digits_no_sep (d : Decimal.uint) : no_sep (NilEmpty.string_of_uint d) = true.
Proof. induction d; simpl; auto. Qed.

Lemma str_no_sep (n : nat) : no_sep (str n) = true.
Proof.
  unfold str, NilZero.string_of_uint.
  destruct (Nat.to_uint n) eqn:E; try reflexivity;
    rewrite <- E; rewrite E; apply (digits_no_sep (_ _)).
Qed.

(** [int(str(n)) == n] *)
Lemma int_str (n : nat) : int (str n) = Some (Z.of_nat n).
Proof.
  unfold int, str.
  assert (H : NilZero.int_of_string (NilZero.string_of_uint (Nat.to_uint n))
              = Some (Decimal.Pos (Nat.to_uint n))).
  { pose proof (NilZero.usu (Nat.to_uint n) (to_uint_nonnil n)) as Hu.
    pose proof (to_uint_nonnil n) as Hn.
    destruct (Nat.to_uint n) as [|d|d|d|d|d|d|d|d|d|d]; [contradiction|..];
      unfold NilZero.int_of_string;
      cbn [NilZero.string_of_uint NilEmpty.string_of_uint];
      cbn [NilZero.string_of_uint NilEmpty.string_of_uint] in Hu;
      (match goal with
       | |- context [Ascii.eqb ?a ?b] =>
           change (Ascii.eqb a b) with false; cbv iota
       end);
      rewrite Hu; reflexivity. }
  rewrite H. rewrite Unsigned.of_to. reflexivity.
Qed.

Lemma no_sep_startswith (d : string) :
  no_sep d = true -> startswith_sep d = false.
Proof.
  destruct d as [|c r]; simpl; [reflexivity|].
  destruct (Ascii.eqb c sep); simpl; [discriminate|reflexivity].
Qed.

Lemma split_no_sep (d : string) : no_sep d = true -> split d = (d, []).
Proof.
  induction d as [|c r IH]; simpl; [reflexivity|].
  destruct (Ascii.eqb c sep); simpl; [discriminate|].
  intros H. rewrite (IH H). reflexivity.
Qed.

Lemma last_default {A} (l : list A) (d d' : A) :
  l <> [] -> List.last l d = List.last l d'.
Proof.
  induction l as [|x l IH]; [contradiction|]. intros _.
  destruct l as [|y l]; [reflexivity|].
  change (List.last (y :: l) d = List.last (y :: l) d').
  apply IH. discriminate.
Qed.

(** What follows the last separator is the last piece. *)
Lemma split_after_sep (a d : string) :
  no_sep d = true ->
  exists h t, split (a ++ String sep d) = (h, t) /\ t <> [] /\ List.last t h = d.
Proof.
  intros Hd. induction a as [|c a IH]; simpl.
  - rewrite (split_no_sep d Hd).
    replace (Ascii.eqb sep sep) with true by reflexivity.
    exists EmptyString, [d]. repeat split. discriminate.
  - destruct IH as (h & t & E & Ht & Hl). rewrite E.
    destruct (Ascii.eqb c sep).
    + exists EmptyString, (h :: t). split; [reflexivity|]. split; [discriminate|].
      destruct t as [|x t]; [contradiction|].
      change (List.last (x :: t) EmptyString = d).
      rewrite <- Hl. apply last_default. discriminate.
    + exists (String c h), t. split; [reflexivity|]. split; [exact Ht|].
      rewrite <- Hl. apply last_default. exact Ht.
Qed.

Lemma split_last_after_sep (a d : string) :
  no_sep d = true -> split_last (a ++ String sep d) = d.
Proof.
  intros Hd. unfold split_last.
  destruct (split_after_sep a d Hd) as (h & t & -> & _ & Hl). exact Hl.
Qed.

Lemma append_assoc (a b c : string) : (a ++ b) ++ c = a ++ (b ++ c).
Proof.
  induction a as [|x a IH]; [reflexivity|].
  change (String x ((a ++ b) ++ c) = String x (a ++ (b ++ c))).
  f_equal. exact IH.
Qed.

Lemma endswith_sep_app (a : string) :
  endswith_sep a = true -> exists b, a = b ++ String sep EmptyString.
Proof.
  induction a as [|c r IH]; simpl; [discriminate|].
  destruct r as [|c' r'].
  - intros H. apply Ascii.eqb_eq in H. subst c. exists EmptyString. reflexivity.
  - intros H. destruct (IH H) as [b Hb]. exists (String c b).
    rewrite Hb. reflexivity.
Qed.

(** [os.path.join(a, d).split('/')[-1] == d] for a piece [d] without
    separator. *)
Lemma split_last_join (a d : string) :
  no_sep d = true -> split_last (join a d) = d.
Proof.
  intros Hd. unfold join. rewrite (no_sep_startswith d Hd).
  destruct a as [|c r].
  - cbn [is_empty_str orb]. change (EmptyString ++ d) with d.
    unfold split_last. rewrite (split_no_sep d Hd). reflexivity.
  - cbn [is_empty_str orb]. set (a := String c r).
    destruct (endswith_sep a) eqn:Ee.
    + destruct (endswith_sep_app a Ee) as [b ->].
      rewrite append_assoc.
      change (String sep EmptyString ++ d) with (String sep d).
      apply split_last_after_sep. exact Hd.
    + apply split_last_after_sep. exact Hd.
Qed.

Lemma step_number_roundtrip (calc : string -> extractor) (outdir sub : string)
    (n : nat) :
  step_number (Extract calc (join3 outdir sub (str n))) = inr (Z.of_nat n + 1)%Z.
Proof.
  unfold step_number, Extract, join3. cbn [directory].
  rewrite (split_last_join _ _ (str_no_sep n)), int_str. reflexivity.
Qed.

(** The policy reads back the step counter.  The result extracted from
    the directory of step [n] of any phase, under any [outdir], has step
    number [n + 1]: [int(directory.split('/')[-1]) + 1] undoes
    [join(outdir, sub, str(n))]. *)
Theorem step_number_of_step_directory (calc : string -> extractor)
    (outdir sub : string) (n : nat) :
  step_number (Extract calc (join3 outdir sub (str n))) = inr (Z.of_nat n + 1)%Z.
Proof. apply step_number_roundtrip. Qed.

(** ** [minrelsteps] in the loops of [iter_relax] *)

(** A relaxation loop of [iter_relax] is not left on convergence before
    [minrelsteps] steps have been made in the run: when a loop returns
    although calls remain and its phase is requested, the step counter
    has reached [minrelsteps]. *)
Theorem minrelsteps_before_convergence (calc : string -> extractor) (vasp : Vasp)
    (structure : Structure) (outdir : string) (first_trial : gmap string pyval)
    (maxcalls : Z) (kwargs : gmap string pyval) (convergence : criterion)
    (minrelsteps : Z) (P : policy) (ph : Phase) (ceiling : Z)
    (word sub rel : string) (fuel : nat) (l l' : locals) (w w' : world) :
  _get_is_converged vasp structure convergence minrelsteps = inr P ->
  (0 < minrelsteps)%Z ->
  relax_loop calc vasp outdir first_trial maxcalls kwargs P ph ceiling word sub rel
             fuel l w = Ok l' w' ->
  more_calls maxcalls ceiling (nb_steps l') && contains word (relaxation vasp) = true ->
  (minrelsteps <= Z.of_nat (nb_steps l'))%Z.
Proof.
  intros Hget Hm. destruct (get_is_converged_guarded _ _ _ _ _ Hget) as [body ->].
  clear Hget. revert l w.
  induction fuel as [|fuel IH]; intros l w; simpl.
  - destruct (more_calls maxcalls ceiling (nb_steps l) && _) eqn:Ec; [discriminate|].
    intros [= <- _] Hc. congruence.
  - destruct (more_calls maxcalls ceiling (nb_steps l) && _) eqn:Ec.
    2:{ intros [= <- _] Hc. congruence. }
    unfold bind.
    pose proof (relax_body_spec calc outdir first_trial kwargs
                  (guarded minrelsteps body) ph sub rel l w) as Hb.
    cbv zeta in Hb.
    destruct (relax_body _ _ _ _ _ _ _ _ _ _) as [[l1 brk] w1|e w1|w1];
      [|discriminate|contradiction].
    destruct Hb as (_ & Hnb & _ & _ & Hpol). cbn [fst snd].
    destruct brk; [|apply IH].
    intros [= <- _] _. rewrite Hnb.
    destruct (after_first_trial first_trial (S (nb_steps l)));
      [destruct Hpol; discriminate|].
    destruct Hpol as [Hpol _]. cbn [r_outdir body_request] in Hpol.
    destruct (Z_lt_le_dec (Z.of_nat (S (nb_steps l))) minrelsteps) as [Hlt|Hle];
      [|exact Hle].
    exfalso. unfold guarded in Hpol.
    destruct (negb (success _)); [discriminate|].
    rewrite step_number_roundtrip in Hpol.
    replace (0 <? minrelsteps)%Z with true in Hpol by (symmetry; apply Z.ltb_lt; lia).
    replace (Z.of_nat (nb_steps l) + 1 <? minrelsteps)%Z with true in Hpol
      by (symmetry; apply Z.ltb_lt; lia).
    discriminate.
Qed.

Lemma minrelsteps_before_convergence_witness :
  let P := is_converged_energy (10 * ediff demo_vasp) 3 in
  let l := mkLocals 0 None one_atom ∅ in
  let w := mkWorld [] [] in
  exists l' w',
    (_get_is_converged demo_vasp one_atom CNone 3 = inr P
     /\ (0 < 3)%Z
     /\ relax_loop steady demo_vasp "out" ∅ 20 ∅ P CellShape 20 "cellshape"
                   "relax_cellshape" (relaxation demo_vasp) 30 l w = Ok l' w'
     /\ more_calls 20 20 (nb_steps l') && contains "cellshape" (relaxation demo_vasp)
        = true)
    /\ (3 <= Z.of_nat (nb_steps l'))%Z.
Proof.
  intros P l w.
  assert (H1 : _get_is_converged demo_vasp one_atom CNone 3 = inr P) by reflexivity.
  assert (H2 : (0 < 3)%Z) by lia.
  destruct (relax_loop steady demo_vasp "out" ∅ 20 ∅ P CellShape 20 "cellshape"
                       "relax_cellshape" (relaxation demo_vasp) 30 l w)
    as [l' w'|e w'|w'] eqn:H3; vm_compute in H3; try discriminate.
  exists l', w'.
  assert (H4 : more_calls 20 20 (nb_steps l')
               && contains "cellshape" (relaxation demo_vasp) = true).
  { injection H3 as <- _. reflexivity. }
  split; [tauto|].
  exact (minrelsteps_before_convergence steady demo_vasp one_atom "out" ∅ 20 ∅ CNone 3
           P CellShape 20 "cellshape" "relax_cellshape" (relaxation demo_vasp) 30
           l l' w w' H1 H2 H3 H4).
Defined.

(** ** A static calculation that failed *)

(** If a computation that asks for no static step is followed by one
    that does, the first part returned. *)
Lemma bind_reaches_static {A B} (m : M A) (k : A -> M B) (w : world) (n : nat) :
  (forall w0, same_steps Static w0 (world_of (m w0))) ->
  steps Static (log w) = n ->
  n < steps Static (log (world_of (bind m k w))) ->
  exists a w1,
    bind m k w = k a w1
    /\ steps Static (log w1) = n
    /\ n < steps Static (log (world_of (k a w1))).
Proof.
  intros Hm Hn. unfold bind. pose proof (Hm w) as H. unfold same_steps in H.
  destruct (m w) as [a w1|e w1|w1]; simpl in *; intros Hlt; try lia.
  exists a, w1. split; [reflexivity|]. split; [lia|exact Hlt].
Qed.

Lemma relax_loop_other_phases (calc : string -> extractor) (vasp : Vasp)
    (outdir : string) (first_trial : gmap string pyval) (maxcalls : Z)
    (kwargs : gmap string pyval) (is_converged : policy) (ph ph' : Phase)
    (ceiling : Z) (word sub rel : string) (fuel : nat) :
  phase_eqb ph' ph = false ->
  forall (l : locals) (w : world),
    same_steps ph' w
      (world_of (relax_loop calc vasp outdir first_trial maxcalls kwargs is_converged
                            ph ceiling word sub rel fuel l w)).
Proof.
  intros Hne. induction fuel as [|fuel IH]; intros l w; simpl;
    destruct (more_calls maxcalls ceiling (nb_steps l) && _);
    try reflexivity.
  unfold bind.
  pose proof (relax_body_spec calc outdir first_trial kwargs is_converged
                ph sub rel l w) as Hb.
  cbv zeta in Hb.
  assert (Hstep : same_steps ph' w (asked ph (body_request outdir sub rel l) w)).
  { unfold same_steps. simpl. rewrite steps_snoc_step, Hne. lia. }
  destruct (relax_body _ _ _ _ _ _ _ _ _ _) as [[l1 brk] w1|e w1|w1];
    [| |contradiction].
  - destruct Hb as (-> & _). cbn [fst snd]. destruct brk.
    + exact Hstep.
    + eapply same_steps_trans; [exact Hstep|apply IH].
  - destruct Hb as (-> & _). exact Hstep.
Qed.

Lemma training_loop_no_static (calc : string -> extractor) (vasp : Vasp)
    (outdir : string) (first_trial : gmap string pyval) (maxcalls : Z)
    (kwargs : gmap string pyval) (is_converged : policy) (fuel : nat) :
  forall (l : locals) (w : world),
    same_steps Static w
      (world_of (training_loop calc vasp outdir first_trial maxcalls kwargs
                               is_converged fuel l w)).
Proof.
  induction fuel as [|fuel IH]; intros l w; simpl;
    destruct (more_calls maxcalls maxcalls (nb_steps l));
    try reflexivity.
  unfold bind.
  pose proof (training_body_spec calc vasp outdir first_trial kwargs is_converged l w)
    as Hb.
  cbv zeta in Hb.
  destruct (training_body _ _ _ _ _ _ _ _) as [[l1 brk] w1|e w1|w1];
    [| |contradiction].
  - destruct Hb as (-> & _). cbn [fst snd].
    assert (Hstep : forall w2, same_steps Static w w2 ->
              same_steps Static w
                (asked Ionic
                   (mkRequest
                      (structure (Extract calc
                         (join3 outdir "relax_cellshape" (str (nb_steps l)))))
                      (join3 outdir "relax_ions" (str (S (nb_steps l))))
                      (Some (Extract calc
                         (join3 outdir "relax_cellshape" (str (nb_steps l)))))
                      (Some "ionic") kwargs)
                   (asked CellShape
                      (mkRequest (relaxed_structure l)
                         (join3 outdir "relax_cellshape" (str (nb_steps l)))
                         (output l) (Some (relaxation vasp))
                         (first_trial ∪ kwargs)) w))).
    { intros w2 _. unfold same_steps. simpl. rewrite !steps_snoc_step. simpl. lia. }
    destruct brk.
    + apply (Hstep w). reflexivity.
    + eapply same_steps_trans; [apply (Hstep w); reflexivity|apply IH].
  - destruct Hb as (-> & _). unfold same_steps. simpl.
    rewrite steps_snoc_step. simpl. lia.
Qed.

Lemma relax_run_failed_static (calc : string -> extractor) (vasp : Vasp)
    (outdir : string) (first_trial : gmap string pyval) (maxcalls : Z)
    (nofail : bool) (kwargs : gmap string pyval) (P : policy) (keepsteps : bool)
    (structure0 : Structure) (fuel : nat) (w : world) :
  success (calc outdir) = false ->
  steps Static (log w) = 0 ->
  0 < steps Static (log (world_of
        (relax_run calc vasp outdir first_trial maxcalls nofail kwargs P keepsteps
                   structure0 fuel w))) ->
  emits_final (relax_run calc vasp outdir first_trial maxcalls nofail kwargs P
                         keepsteps structure0 fuel w) outdir.
Proof.
  intros Hfail H0. unfold relax_run, cellshape_loop, ionic_loop. intros H.
  apply (bind_reaches_static _ _ _ _
           (relax_loop_other_phases calc vasp outdir first_trial maxcalls kwargs P
              CellShape Static maxcalls "cellshape" "relax_cellshape"
              (relaxation vasp) fuel eq_refl _) H0) in H.
  destruct H as (l1 & w1 & -> & H1 & H).
  apply (fun Hq => bind_reaches_static _ _ _ _ Hq H1) in H;
    [|intros w0; rewrite check_converged_world; reflexivity].
  destruct H as (u1 & w2 & -> & H2 & H).
  apply (bind_reaches_static _ _ _ _
           (relax_loop_other_phases calc vasp outdir first_trial maxcalls kwargs P
              Ionic Static (maxcalls + 1) "ionic" "relax_ions" "ionic"
              fuel eq_refl _) H2) in H.
  destruct H as (l2 & w3 & -> & H3 & H).
  apply (fun Hq => bind_reaches_static _ _ _ _ Hq H3) in H.
  2:{ intros w0. destruct (gwcalc_spec calc vasp outdir maxcalls l2 w0)
        as [->|(rq & -> & _)]; [reflexivity|].
      unfold same_steps. simpl. rewrite steps_snoc_step. simpl. lia. }
  destruct H as (l3 & w4 & -> & H4 & H).
  apply (fun Hq => bind_reaches_static _ _ _ _ Hq H4) in H;
    [|intros w0; rewrite check_converged_world; reflexivity].
  destruct H as (u2 & w5 & -> & _ & _).
  unfold bind at 1. rewrite static_step_spec.
  unfold cleanup, bind. simpl. rewrite Hfail. simpl.
  unfold emits_final, ret, yield_final. simpl. apply last_snoc.
Qed.

Lemma training_run_failed_static (calc : string -> extractor) (vasp : Vasp)
    (outdir : string) (first_trial : gmap string pyval) (maxcalls : Z)
    (nofail : bool) (kwargs : gmap string pyval) (P : policy)
    (structure0 : Structure) (fuel : nat) (w : world) :
  steps Static (log w) = 0 ->
  0 < steps Static (log (world_of
        (training_run calc vasp outdir first_trial maxcalls nofail kwargs P
                      structure0 fuel w))) ->
  emits_final (training_run calc vasp outdir first_trial maxcalls nofail kwargs P
                            structure0 fuel w) outdir.
Proof.
  intros H0. unfold training_run. intros H.
  apply (bind_reaches_static _ _ _ _
           (training_loop_no_static calc vasp outdir first_trial
              maxcalls kwargs P fuel _) H0) in H.
  destruct H as (l1 & w1 & -> & H1 & H).
  apply (fun Hq => bind_reaches_static _ _ _ _ Hq H1) in H;
    [|intros w0; rewrite check_converged_world; reflexivity].
  destruct H as (u1 & w2 & -> & H2 & H).
  apply (fun Hq => bind_reaches_static _ _ _ _ Hq H2) in H;
    [|intros w0; rewrite check_converged_world; reflexivity].
  destruct H as (u2 & w3 & -> & _ & _).
  unfold bind at 1. rewrite static_step_spec.
  unfold emits_final, yield_final. simpl. apply last_snoc.
Qed.

(** In [iter_relax] a static calculation that failed is not signalled:
    whenever the run gets as far as the static step and that step fails,
    the run still ends normally, by yielding the final extraction object
    of [outdir].  In [iter_training], which has no clean-up, the run ends
    so whenever it gets to the static step, failed or not. *)
Theorem failed_static_step_ignored (calc : string -> extractor) (vasp : Vasp)
    (structure0 : Structure) (outdir : string)
    (first_trial : option (gmap string pyval)) (maxcalls : Z)
    (keepsteps nofail : bool) (convergence : criterion) (minrelsteps : Z)
    (kwargs : gmap string pyval) (fuel : nat) (dirs : list string) :
  success (calc outdir) = false ->
  let w := mkWorld [] dirs in
  let r1 := iter_relax calc vasp structure0 outdir first_trial maxcalls keepsteps
                       nofail convergence minrelsteps kwargs fuel w in
  let r2 := iter_training calc vasp structure0 outdir first_trial maxcalls
                          nofail convergence minrelsteps kwargs fuel w in
  (0 < steps Static (log (world_of r1)) -> emits_final r1 outdir)
  /\ (0 < steps Static (log (world_of r2)) -> emits_final r2 outdir).
Proof.
  intros Hfail w r1 r2.
  assert (H0 : steps Static (log w) = 0) by reflexivity.
  split.
  - assert (E : r1 = match _get_is_converged vasp structure0 convergence minrelsteps with
                     | inl x => Raise x w
                     | inr P => relax_run calc vasp outdir (or_empty first_trial)
                                          maxcalls nofail kwargs P keepsteps
                                          structure0 fuel w
                     end).
    { subst r1. unfold iter_relax, bind, lift.
      destruct (_get_is_converged _ _ _ _); reflexivity. }
    rewrite E. clear E.
    destruct (_get_is_converged vasp structure0 convergence minrelsteps) as [e|P].
    + simpl. unfold steps. simpl. lia.
    + apply relax_run_failed_static; assumption.
  - assert (E : r2 = match _get_is_converged vasp structure0 convergence (-1) with
                     | inl x => Raise x w
                     | inr P => training_run calc vasp outdir (or_empty first_trial)
                                             maxcalls nofail kwargs P
                                             structure0 fuel w
                     end).
    { subst r2. unfold iter_training, bind, lift.
      destruct (_get_is_converged _ _ _ _); reflexivity. }
    rewrite E. clear E.
    destruct (_get_is_converged vasp structure0 convergence (-1)) as [e|P].
    + simpl. unfold steps. simpl. lia.
    + apply training_run_failed_static; assumption.
Qed.

Lemma failed_static_step_ignored_witness :
  emits_final (iter_relax static_fails demo_vasp one_atom "out" None 2 false true
                          CNone 0 ∅ 5 (mkWorld [] [])) "out"
  /\ emits_final (iter_training static_fails demo_vasp one_atom "out" None 2 true
                                CNone 0 ∅ 5 (mkWorld [] [])) "out".
Proof.
  destruct (failed_static_step_ignored static_fails demo_vasp one_atom "out" None 2
              false true CNone 0 ∅ 5 [] eq_refl) as [H1 H2].
  split; [apply H1|apply H2]; vm_compute; lia.
Defined.

(** ** The clean-up of [iter_relax] *)

Lemma join_glue (a : string) :
  exists j, (j = "" \/ j = String sep "")
            /\ forall b, startswith_sep b = false -> join a b = a ++ j ++ b.
Proof.
  destruct (is_empty_str a || endswith_sep a) eqn:E.
  - exists "". split; [left; reflexivity|]. intros b Hb. unfold join.
    rewrite Hb, E. reflexivity.
  - exists (String sep ""). split; [right; reflexivity|]. intros b Hb. unfold join.
    rewrite Hb, E. reflexivity.
Qed.

Lemma eqb_app_l (x a b : string) : String.eqb (x ++ a) (x ++ b) = String.eqb a b.
Proof.
  induction x as [|c x IH]; [reflexivity|].
  change (String.eqb (String c (x ++ a)) (String c (x ++ b)) = String.eqb a b).
  simpl. rewrite Ascii.eqb_refl. exact IH.
Qed.

Lemma prefix_app_l (x a b : string) :
  String.prefix (x ++ a) (x ++ b) = String.prefix a b.
Proof.
  induction x as [|c x IH]; [reflexivity|].
  change (String.prefix (String c (x ++ a)) (String c (x ++ b)) = String.prefix a b).
  simpl. destruct (ascii_dec c c) as [_|n]; [exact IH|contradiction].
Qed.

Lemma under_app_l (x a b : string) : under (x ++ a) (x ++ b) = under a b.
Proof.
  unfold under. rewrite eqb_app_l, append_assoc, prefix_app_l. reflexivity.
Qed.

Lemma under_longer (x r : string) (c : ascii) : under (x ++ String c r) x = false.
Proof.
  unfold under. rewrite append_assoc.
  induction x as [|d x IH]; [reflexivity|].
  change (String.eqb (String d (x ++ String c r)) (String d x)
          || String.prefix (String d (x ++ String c r ++ String sep ""))
                           (String d x) = false).
  simpl. rewrite Ascii.eqb_refl.
  destruct (ascii_dec d d) as [_|n]; [exact IH|contradiction].
Qed.

Lemma spared_outdir (outdir : string) : spared outdir outdir = true.
Proof.
  unfold spared. destruct (join_glue outdir) as (j & Hj & E).
  rewrite !E by reflexivity.
  destruct Hj as [-> | ->].
  - change ("" ++ "cellshape") with (String "c" "ellshape").
    change ("" ++ "ions") with (String "i" "ons").
    rewrite !under_longer. reflexivity.
  - change (String sep "" ++ "cellshape") with (String sep "cellshape").
    change (String sep "" ++ "ions") with (String sep "ions").
    rewrite !under_longer. reflexivity.
Qed.

Lemma spared_step_directory (outdir sub s : string) :
  startswith_sep sub = false ->
  (forall t, under "cellshape" (sub ++ t) = false) ->
  (forall t, under "ions" (sub ++ t) = false) ->
  no_sep s = true ->
  spared outdir (join3 outdir sub s) = true.
Proof.
  intros Hsub Hc Hi Hs. apply no_sep_startswith in Hs.
  unfold spared, join3. destruct (join_glue outdir) as (j & _ & E).
  rewrite !E by (reflexivity || exact Hsub).
  destruct (join_glue (outdir ++ j ++ sub)) as (j2 & _ & E2).
  rewrite (E2 s Hs), !append_assoc, !under_app_l, Hc, Hi. reflexivity.
Qed.

Lemma spared_relaxation_directories (outdir : string) (n : nat) :
  spared outdir (join3 outdir "relax_cellshape" (str n)) = true
  /\ spared outdir (join3 outdir "relax_ions" (str n)) = true
  /\ spared outdir (join3 outdir "relax_gwcalc" (str n)) = true.
Proof.
  repeat split; apply spared_step_directory;
    (reflexivity || (intros t; reflexivity) || apply str_no_sep).
Qed.

Section CleanupFacts.

Variable calc : string -> extractor.
Variable vasp : Vasp.
Variable outdir : string.
Variable first_trial : gmap string pyval.
Variable maxcalls : Z.
Variable nofail : bool.
Variable kwargs : gmap string pyval.
Variable is_converged : policy.

(** A property of the world that a request in a spared directory keeps. *)
Variable I : world -> Prop.
Hypothesis I_asked : forall ph rq w,
  spared outdir (r_outdir rq) = true -> I w -> I (asked ph rq w).

Lemma relax_loop_spares (ph : Phase) (ceiling : Z) (word sub rel : string)
    (fuel : nat) :
  (forall n, spared outdir (join3 outdir sub (str n)) = true) ->
  forall (l : locals) (w : world),
    I w ->
    I (world_of (relax_loop calc vasp outdir first_trial maxcalls kwargs is_converged
                            ph ceiling word sub rel fuel l w)).
Proof.
  intros Hsub. induction fuel as [|fuel IH]; intros l w Hw; simpl;
    destruct (more_calls maxcalls ceiling (nb_steps l) && _); try exact Hw.
  unfold bind.
  pose proof (relax_body_spec calc outdir first_trial kwargs is_converged
                              ph sub rel l w) as Hb.
  cbv zeta in Hb.
  destruct (relax_body _ _ _ _ _ _ _ _ _ _) as [[l1 brk] w1|e w1|w1];
    [| |contradiction].
  - destruct Hb as (-> & _). cbn [fst snd].
    assert (H1 : I (asked ph (body_request outdir sub rel l) w))
      by (apply I_asked; [apply Hsub|exact Hw]).
    destruct brk; [exact H1|]. apply IH, H1.
  - destruct Hb as (-> & _). simpl. apply I_asked; [apply Hsub|exact Hw].
Qed.

Lemma gwcalc_spares (l : locals) (w : world) :
  I w -> I (world_of (gwcalc calc vasp outdir maxcalls l w)).
Proof.
  intros Hw. unfold gwcalc.
  destruct (more_calls maxcalls (maxcalls + 2) (nb_steps l) && _); [|exact Hw].
  unfold bind, vasp_iter. rewrite did_not_complete_ok. simpl.
  apply (I_asked ExtraPhase
           (mkRequest (relaxed_structure l)
                      (join3 outdir "relax_gwcalc" (str (nb_steps l)))
                      (output l) (Some "relgw") (params l)) w);
    [apply spared_relaxation_directories|exact Hw].
Qed.

Lemma static_step_spares (l : locals) (w : world) :
  I w -> I (world_of (static_step calc outdir kwargs l w)).
Proof.
  intros Hw. rewrite static_step_spec. simpl.
  apply I_asked; [apply spared_outdir|exact Hw].
Qed.

End CleanupFacts.

Lemma spared_asked (outdir : string) (ph : Phase) (rq : request) (w : world) :
  spared outdir (r_outdir rq) = true ->
  steps_in_spared_directories outdir w ->
  steps_in_spared_directories outdir (asked ph rq w).
Proof.
  intros Hrq Hw ph' rq' Hin. simpl in *.
  apply in_app_or in Hin. destruct Hin as [Hin|[[= <- <-]|[]]].
  - destruct (Hw _ _ Hin) as [H1 H2]. split; [right; exact H1|exact H2].
  - split; [left; reflexivity|exact Hrq].
Qed.

Lemma rmtree_spares (outdir p : string) (w : world) :
  (forall q, spared outdir q = true -> under p q = false) ->
  steps_in_spared_directories outdir w ->
  steps_in_spared_directories outdir (world_of (rmtree p w)).
Proof.
  intros Hp Hw. unfold rmtree. destruct (exists_path p (fs w)); [|exact Hw].
  intros ph rq Hin. simpl in *. destruct (Hw _ _ Hin) as [H1 H2].
  split; [|exact H2]. apply filter_In. split; [exact H1|].
  rewrite (Hp _ H2). reflexivity.
Qed.

Lemma cleanup_spares (outdir : string) (keepsteps : bool) (out : extractor)
    (w : world) :
  steps_in_spared_directories outdir w ->
  steps_in_spared_directories outdir (world_of (cleanup outdir keepsteps out w)).
Proof.
  unfold cleanup. destruct (success out && negb keepsteps); [|intros H; exact H].
  revert w.
  apply (bind_keeps (fun w w' => steps_in_spared_directories outdir w ->
                                 steps_in_spared_directories outdir w')).
  - auto.
  - intros w. apply rmtree_spares. intros q Hq. unfold spared in Hq.
    apply andb_true_iff in Hq. destruct Hq as [Hq _].
    apply negb_true_iff in Hq. exact Hq.
  - intros _ w. apply rmtree_spares. intros q Hq. unfold spared in Hq.
    apply andb_true_iff in Hq. destruct Hq as [_ Hq].
    apply negb_true_iff in Hq. exact Hq.
Qed.

Lemma relax_run_spares (calc : string -> extractor) (vasp : Vasp)
    (outdir : string) (first_trial : gmap string pyval) (maxcalls : Z)
    (nofail : bool) (kwargs : gmap string pyval) (P : policy) (keepsteps : bool)
    (structure0 : Structure) (fuel : nat) (w : world) :
  steps_in_spared_directories outdir w ->
  steps_in_spared_directories outdir
    (world_of (relax_run calc vasp outdir first_trial maxcalls nofail kwargs P
                         keepsteps structure0 fuel w)).
Proof.
  unfold relax_run, cellshape_loop, ionic_loop. revert w.
  pose proof (spared_asked outdir) as Ha.
  pose proof (spared_relaxation_directories outdir) as Hd.
  assert (Htrans : forall w1 w2 w3 : world,
             (steps_in_spared_directories outdir w1 ->
              steps_in_spared_directories outdir w2) ->
             (steps_in_spared_directories outdir w2 ->
              steps_in_spared_directories outdir w3) ->
             steps_in_spared_directories outdir w1 ->
             steps_in_spared_directories outdir w3) by auto.
  apply (bind_keeps _ _ _ Htrans).
  { intros w. apply relax_loop_spares; [exact Ha|]. intros n. apply Hd. }
  intros l1. apply (bind_keeps _ _ _ Htrans).
  { intros w. rewrite check_converged_world. auto. }
  intros _. apply (bind_keeps _ _ _ Htrans).
  { intros w. apply relax_loop_spares; [exact Ha|]. intros n. apply Hd. }
  intros l2. apply (bind_keeps _ _ _ Htrans).
  { intros w. apply gwcalc_spares. exact Ha. }
  intros l3. apply (bind_keeps _ _ _ Htrans).
  { intros w. rewrite check_converged_world. auto. }
  intros _. apply (bind_keeps _ _ _ Htrans).
  { intros w. apply static_step_spares. exact Ha. }
  intros out. apply (bind_keeps _ _ _ Htrans).
  { intros w. apply cleanup_spares. }
  intros _ w Hw ph rq Hin. simpl in Hin.
  apply in_app_or in Hin. destruct Hin as [Hin|[[=]|[]]].
  exact (Hw _ _ Hin).
Qed.

(** [iter_relax] never removes a directory in which it had a step run:
    however the run ends and whatever [keepsteps] is, the directory of
    every step it requested is still there.  (The clean-up of lines
    351-353 removes [outdir/cellshape] and [outdir/ions]; the steps ran in
    [outdir/relax_cellshape/<n>] and [outdir/relax_ions/<n>].) *)
Theorem step_directories_never_removed (calc : string -> extractor) (vasp : Vasp)
    (structure0 : Structure) (outdir : string)
    (first_trial : option (gmap string pyval)) (maxcalls : Z)
    (keepsteps nofail : bool) (convergence : criterion) (minrelsteps : Z)
    (kwargs : gmap string pyval) (fuel : nat) (dirs : list string) :
  step_directories_kept
    (world_of (iter_relax calc vasp structure0 outdir first_trial maxcalls keepsteps
                          nofail convergence minrelsteps kwargs fuel
                          (mkWorld [] dirs))).
Proof.
  assert (H : steps_in_spared_directories outdir
                (world_of (iter_relax calc vasp structure0 outdir first_trial
                                      maxcalls keepsteps nofail convergence
                                      minrelsteps kwargs fuel (mkWorld [] dirs)))).
  { unfold iter_relax, bind at 1, lift.
    destruct (_get_is_converged vasp structure0 convergence minrelsteps) as [e|P].
    - intros ph rq [].
    - apply relax_run_spares. intros ph rq []. }
  intros ph rq Hin. apply (H ph rq Hin).
Qed.

Section StagesBeforeStatic.

Variable calc : string -> extractor.
Variable vasp : Vasp.
Variable outdir : string.
Variable first_trial : gmap string pyval.
Variable maxcalls : Z.
Variable nofail : bool.
Variable kwargs : gmap string pyval.
Variable is_converged : policy.
Variable I : world -> Prop.
Hypothesis I_asked : forall ph rq w,
  spared outdir (r_outdir rq) = true -> I w -> I (asked ph rq w).

(** One stage of a run before its static step: [Q] holds of the whole if
    it holds when the stage stops the run and when the rest is run. *)
Lemma bind_stage {A B} (Q : res B -> Prop) (m : M A) (k : A -> M B)
    (w : world) (n : nat) :
  (forall e w1, steps Static (log w1) = n -> Q (Raise e w1)) ->
  (forall w1, steps Static (log w1) = n -> Q (Fuel w1)) ->
  (forall w0, I w0 -> I (world_of (m w0))) ->
  (forall w0, same_steps Static w0 (world_of (m w0))) ->
  (forall a w1, m w = Ok a w1 -> I w1 -> steps Static (log w1) = n -> Q (k a w1)) ->
  I w -> steps Static (log w) = n -> Q (bind m k w).
Proof.
  intros Hr Hf HI Hs Hk Hw Hn. unfold bind.
  specialize (HI w Hw). specialize (Hs w). unfold same_steps in Hs.
  destruct (m w) as [a w1|e w1|w1]; simpl in *;
    [apply Hk|apply Hr|apply Hf]; congruence.
Qed.

Lemma check_converged_passed (what : string) (l : locals) (w w' : world) (u : unit) :
  check_converged maxcalls nofail is_converged what l w = Ok u w' ->
  nofail = false -> is_converged (output l) = inr true.
Proof.
  unfold check_converged, bind, lift, raise, ret. intros H ->. simpl in H.
  destruct (is_converged (output l)) as [e|[|]]; [discriminate|reflexivity|discriminate].
Qed.

(** Either the run gets to its static step, in a world where [I] holds
    and with the locals [l], or it stops before without a static step. *)
Lemma relax_run_stages (keepsteps : bool) (structure0 : Structure) (fuel : nat)
    (w : world) :
  I w ->
  let r := relax_run calc vasp outdir first_trial maxcalls nofail kwargs
                     is_converged keepsteps structure0 fuel w in
  (exists l w1,
      I w1 /\ steps Static (log w1) = steps Static (log w)
      /\ (nofail = false -> is_converged (output l) = inr true)
      /\ r = (output <- static_step calc outdir kwargs l ;;
              cleanup outdir keepsteps output ;; yield_final outdir) w1)
  \/ ((forall u w', r <> Ok u w')
      /\ steps Static (log (world_of r)) = steps Static (log w)).
Proof.
  intros Hw r. subst r.
  set (Q := fun r : res unit =>
    (exists l w1,
        I w1 /\ steps Static (log w1) = steps Static (log w)
        /\ (nofail = false -> is_converged (output l) = inr true)
        /\ r = (output <- static_step calc outdir kwargs l ;;
                cleanup outdir keepsteps output ;; yield_final outdir) w1)
    \/ ((forall u w', r <> Ok u w')
        /\ steps Static (log (world_of r)) = steps Static (log w))).
  change (Q (relax_run calc vasp outdir first_trial maxcalls nofail kwargs
                       is_converged keepsteps structure0 fuel w)).
  unfold relax_run, cellshape_loop, ionic_loop.
  pose proof (spared_relaxation_directories outdir) as Hd.
  apply (bind_stage Q _ _ w (steps Static (log w)));
    [intros e w1 H; right; split; [discriminate|exact H]
    |intros w1 H; right; split; [discriminate|exact H]
    |intros w0; apply relax_loop_spares; [exact I_asked|intros n; apply Hd]
    |intros w0; apply relax_loop_other_phases; reflexivity
    | |exact Hw|reflexivity].
  intros l1 w1 _ H1 E1.
  apply (bind_stage Q _ _ w1 (steps Static (log w)));
    [intros e w2 H; right; split; [discriminate|exact H]
    |intros w2 H; right; split; [discriminate|exact H]
    |intros w0; rewrite check_converged_world; auto
    |intros w0; rewrite check_converged_world; reflexivity
    | |exact H1|exact E1].
  intros _ w2 _ H2 E2.
  apply (bind_stage Q _ _ w2 (steps Static (log w)));
    [intros e w3 H; right; split; [discriminate|exact H]
    |intros w3 H; right; split; [discriminate|exact H]
    |intros w0; apply relax_loop_spares; [exact I_asked|intros n; apply Hd]
    |intros w0; apply relax_loop_other_phases; reflexivity
    | |exact H2|exact E2].
  intros l3 w3 _ H3 E3.
  apply (bind_stage Q _ _ w3 (steps Static (log w)));
    [intros e w4 H; right; split; [discriminate|exact H]
    |intros w4 H; right; split; [discriminate|exact H]
    |intros w0; apply gwcalc_spares; exact I_asked
    | | |exact H3|exact E3].
  { intros w0. destruct (gwcalc_spec calc vasp outdir maxcalls l3 w0)
      as [->|(rq & -> & _)]; [reflexivity|].
    unfold same_steps. simpl. rewrite steps_snoc_step. simpl. lia. }
  intros l4 w4 _ H4 E4.
  apply (bind_stage Q _ _ w4 (steps Static (log w)));
    [intros e w5 H; right; split; [discriminate|exact H]
    |intros w5 H; right; split; [discriminate|exact H]
    |intros w0; rewrite check_converged_world; auto
    |intros w0; rewrite check_converged_world; reflexivity
    | |exact H4|exact E4].
  intros u w5 Hc H5 E5. left. exists l4, w5.
  split; [exact H5|]. split; [exact E5|]. split; [|reflexivity].
  exact (check_converged_passed _ _ _ _ _ Hc).
Qed.

End StagesBeforeStatic.

Lemma no_stale_asked (outdir : string) (ph : Phase) (rq : request) (w : world) :
  spared outdir (r_outdir rq) = true ->
  exists_path (join outdir "cellshape") (fs w) = false ->
  exists_path (join outdir "cellshape") (fs (asked ph rq w)) = false.
Proof.
  intros Hrq Hw. unfold exists_path in *. simpl. rewrite Hw.
  unfold spared in Hrq. apply andb_true_iff in Hrq. destruct Hrq as [Hrq _].
  apply negb_true_iff in Hrq. rewrite Hrq. reflexivity.
Qed.

Lemma cleanup_raises (outdir : string) (out : extractor) (w : world) :
  success out = true ->
  exists_path (join outdir "cellshape") (fs w) = false ->
  cleanup outdir false out w = Raise (FileNotFoundError (join outdir "cellshape")) w.
Proof.
  intros Hok Hw. unfold cleanup. rewrite Hok. cbn [andb negb].
  unfold bind, rmtree. rewrite Hw. reflexivity.
Qed.

(** With [keepsteps] false, a run of [iter_relax] whose static calculation
    succeeded ends normally only if a directory [outdir/cellshape] was
    there before the run: without one, the run never yields the final
    extraction object, and when it has made its static step it ends with
    the [FileNotFoundError] of [rmtree(join(outdir, "cellshape"))]. *)
Theorem cleanup_needs_stale_directory (calc : string -> extractor) (vasp : Vasp)
    (structure0 : Structure) (outdir : string)
    (first_trial : option (gmap string pyval)) (maxcalls : Z)
    (nofail : bool) (convergence : criterion) (minrelsteps : Z)
    (kwargs : gmap string pyval) (fuel : nat) (dirs : list string) :
  success (calc outdir) = true ->
  exists_path (join outdir "cellshape") dirs = false ->
  let r := iter_relax calc vasp structure0 outdir first_trial maxcalls false
                      nofail convergence minrelsteps kwargs fuel
                      (mkWorld [] dirs) in
  (forall w', r <> Ok tt w')
  /\ (0 < steps Static (log (world_of r)) ->
      r = Raise (FileNotFoundError (join outdir "cellshape")) (world_of r)).
Proof.
  intros Hok Hdirs r.
  assert (E : r = match _get_is_converged vasp structure0 convergence minrelsteps with
                  | inl x => Raise x (mkWorld [] dirs)
                  | inr P => relax_run calc vasp outdir (or_empty first_trial)
                                       maxcalls nofail kwargs P false
                                       structure0 fuel (mkWorld [] dirs)
                  end).
  { subst r. unfold iter_relax, bind, lift.
    destruct (_get_is_converged _ _ _ _); reflexivity. }
  clearbody r. subst r.
  destruct (_get_is_converged vasp structure0 convergence minrelsteps) as [e|P].
  { split; [discriminate|]. unfold steps. simpl. lia. }
  destruct (relax_run_stages calc vasp outdir (or_empty first_trial) maxcalls nofail
              kwargs P _ (no_stale_asked outdir) false structure0 fuel
              (mkWorld [] dirs) Hdirs)
    as [(l & w1 & H1 & _ & _ & ->)|[Hno Hst]].
  - assert (Et : (output <- static_step calc outdir kwargs l ;;
                  cleanup outdir false output ;; yield_final outdir) w1
                 = Raise (FileNotFoundError (join outdir "cellshape"))
                         (asked Static
                            (mkRequest (relaxed_structure l) outdir (output l)
                                       (Some "static") kwargs) w1)).
    { unfold bind at 1. rewrite static_step_spec.
      unfold bind at 1. rewrite cleanup_raises;
        [reflexivity|exact Hok
        |apply no_stale_asked; [apply spared_outdir|exact H1]]. }
    rewrite Et. split; [discriminate|reflexivity].
  - split; [intros w'; apply Hno|]. rewrite Hst. unfold steps. simpl. lia.
Qed.

Lemma cleanup_needs_stale_directory_witness :
  let r := iter_relax steady demo_vasp one_atom "out" None 2 false true CNone 0 ∅ 5
                      (mkWorld [] []) in
  (forall w', r <> Ok tt w')
  /\ r = Raise (FileNotFoundError "out/cellshape") (world_of r).
Proof.
  destruct (cleanup_needs_stale_directory steady demo_vasp one_atom "out" None 2
              true CNone 0 ∅ 5 [] eq_refl eq_refl) as [H1 H2].
  split; [exact H1|]. apply H2. vm_compute. lia.
Defined.

(** ** The static calculation and the convergence tests *)

Lemma no_step_of_phase (ph : Phase) (rq : request) (evs : list event) :
  steps ph evs = 0 -> ~ In (Step ph rq) evs.
Proof.
  unfold steps. induction evs as [|ev evs IH]; simpl; [tauto|].
  intros H [->|Hin].
  - simpl in H. replace (phase_eqb ph ph) with true in H by (destruct ph; reflexivity).
    discriminate.
  - destruct (is_step ph ev); [discriminate|]. exact (IH H Hin).
Qed.

(** The log once the static step of [iter_relax] is made. *)
Lemma relax_tail_log (calc : string -> extractor) (outdir : string)
    (kwargs : gmap string pyval) (keepsteps : bool) (l : locals) (w : world) :
  let rq := mkRequest (relaxed_structure l) outdir (output l) (Some "static") kwargs in
  let r := (output <- static_step calc outdir kwargs l ;;
            cleanup outdir keepsteps output ;; yield_final outdir) w in
  log (world_of r) = (log w ++ [Step Static rq])%list
  \/ log (world_of r) = (log w ++ [Step Static rq; Final outdir])%list.
Proof.
  intros rq r. subst r. unfold bind. rewrite static_step_spec. fold rq.
  pose proof (cleanup_log outdir keepsteps (Extract calc outdir) (asked Static rq w))
    as Hc.
  destruct (cleanup outdir keepsteps (Extract calc outdir) (asked Static rq w))
    as [u w1|e w1|w1]; simpl in *.
  - right. unfold yield_final. simpl. rewrite Hc, <- app_assoc. reflexivity.
  - left. exact Hc.
  - left. exact Hc.
Qed.

Lemma training_run_stages (calc : string -> extractor) (vasp : Vasp)
    (outdir : string) (first_trial : gmap string pyval) (maxcalls : Z)
    (nofail : bool) (kwargs : gmap string pyval) (P : policy)
    (structure0 : Structure) (fuel : nat) (w : world) :
  let r := training_run calc vasp outdir first_trial maxcalls nofail kwargs P
                        structure0 fuel w in
  (exists l w1,
      steps Static (log w1) = steps Static (log w)
      /\ (nofail = false -> P (output l) = inr true)
      /\ r = (_ <- static_step calc outdir kwargs l ;; yield_final outdir) w1)
  \/ ((forall u w', r <> Ok u w')
      /\ steps Static (log (world_of r)) = steps Static (log w)).
Proof.
  intros r. subst r.
  set (Q := fun r : res unit =>
    (exists l w1,
        steps Static (log w1) = steps Static (log w)
        /\ (nofail = false -> P (output l) = inr true)
        /\ r = (_ <- static_step calc outdir kwargs l ;; yield_final outdir) w1)
    \/ ((forall u w', r <> Ok u w')
        /\ steps Static (log (world_of r)) = steps Static (log w))).
  change (Q (training_run calc vasp outdir first_trial maxcalls nofail kwargs P
                          structure0 fuel w)).
  unfold training_run.
  apply (bind_stage (fun _ => True) Q _ _ w (steps Static (log w)));
    [intros e w1 H; right; split; [discriminate|exact H]
    |intros w1 H; right; split; [discriminate|exact H]
    |auto
    |intros w0; apply training_loop_no_static
    | |exact Logic.I|reflexivity].
  intros l1 w1 _ _ E1.
  apply (bind_stage (fun _ => True) Q _ _ w1 (steps Static (log w)));
    [intros e w2 H; right; split; [discriminate|exact H]
    |intros w2 H; right; split; [discriminate|exact H]
    |auto
    |intros w0; rewrite check_converged_world; reflexivity
    | |exact Logic.I|exact E1].
  intros u w2 Hc _ E2.
  apply (bind_stage (fun _ => True) Q _ _ w2 (steps Static (log w)));
    [intros e w3 H; right; split; [discriminate|exact H]
    |intros w3 H; right; split; [discriminate|exact H]
    |auto
    |intros w0; rewrite check_converged_world; reflexivity
    | |exact Logic.I|exact E2].
  intros u' w3 _ _ E3. left. exists l1, w3.
  split; [exact E3|]. split; [|reflexivity].
  exact (check_converged_passed _ _ _ _ _ _ _ _ Hc).
Qed.

(** With [nofail] false, the static calculation of [iter_relax] and of
    [iter_training] is only ever requested with a [restart] that the
    convergence policy of the run reports converged. *)
Theorem static_step_only_when_converged (calc : string -> extractor) (vasp : Vasp)
    (structure0 : Structure) (outdir : string)
    (first_trial : option (gmap string pyval)) (maxcalls : Z)
    (keepsteps : bool) (convergence : criterion) (minrelsteps : Z)
    (kwargs : gmap string pyval) (fuel : nat) (dirs : list string) (rq : request) :
  let w := mkWorld [] dirs in
  let r1 := iter_relax calc vasp structure0 outdir first_trial maxcalls keepsteps
                       false convergence minrelsteps kwargs fuel w in
  let r2 := iter_training calc vasp structure0 outdir first_trial maxcalls
                          false convergence minrelsteps kwargs fuel w in
  (In (Step Static rq) (log (world_of r1)) ->
   exists P, _get_is_converged vasp structure0 convergence minrelsteps = inr P
             /\ P (r_restart rq) = inr true)
  /\ (In (Step Static rq) (log (world_of r2)) ->
      exists P, _get_is_converged vasp structure0 convergence (-1) = inr P
                /\ P (r_restart rq) = inr true).
Proof.
  intros w r1 r2. split.
  - assert (E : r1 = match _get_is_converged vasp structure0 convergence minrelsteps with
                     | inl x => Raise x w
                     | inr P => relax_run calc vasp outdir (or_empty first_trial)
                                          maxcalls false kwargs P keepsteps
                                          structure0 fuel w
                     end).
    { subst r1. unfold iter_relax, bind, lift.
      destruct (_get_is_converged _ _ _ _); reflexivity. }
    rewrite E. clear E.
    destruct (_get_is_converged vasp structure0 convergence minrelsteps) as [e|P];
      [intros []|].
    intros Hin. exists P. split; [reflexivity|].
    destruct (relax_run_stages calc vasp outdir (or_empty first_trial) maxcalls false
                kwargs P (fun _ => True) (fun _ _ _ _ _ => Logic.I) keepsteps
                structure0 fuel w Logic.I)
      as [(l & w1 & _ & H0 & Hc & E)|[_ Hst]].
    + rewrite E in Hin.
      destruct (relax_tail_log calc outdir kwargs keepsteps l w1) as [Hl|Hl];
        rewrite Hl in Hin; apply in_app_or in Hin;
        (destruct Hin as [Hin|Hin];
         [exfalso; exact (no_step_of_phase _ _ _ H0 Hin)|]);
        [destruct Hin as [[= <-]|[]]|destruct Hin as [[= <-]|[[=]|[]]]];
        exact (Hc eq_refl).
    + exfalso. exact (no_step_of_phase _ _ _ Hst Hin).
  - assert (E : r2 = match _get_is_converged vasp structure0 convergence (-1) with
                     | inl x => Raise x w
                     | inr P => training_run calc vasp outdir (or_empty first_trial)
                                             maxcalls false kwargs P
                                             structure0 fuel w
                     end).
    { subst r2. unfold iter_training, bind, lift.
      destruct (_get_is_converged _ _ _ _); reflexivity. }
    rewrite E. clear E.
    destruct (_get_is_converged vasp structure0 convergence (-1)) as [e|P];
      [intros []|].
    intros Hin. exists P. split; [reflexivity|].
    destruct (training_run_stages calc vasp outdir (or_empty first_trial) maxcalls
                false kwargs P structure0 fuel w)
      as [(l & w1 & H0 & Hc & E)|[_ Hst]].
    + rewrite E in Hin. unfold bind at 1 in Hin. rewrite static_step_spec in Hin.
      simpl in Hin. apply in_app_or in Hin. destruct Hin as [Hin|[[=]|[]]].
      apply in_app_or in Hin.
      destruct Hin as [Hin|[[= <-]|[]]];
        [exfalso; exact (no_step_of_phase _ _ _ H0 Hin)|].
      exact (Hc eq_refl).
    + exfalso. exact (no_step_of_phase _ _ _ Hst Hin).
Qed.

Lemma static_step_only_when_converged_witness :
  let r := iter_relax steady demo_vasp one_atom "out" None 2 true false CNone 0 ∅ 5
                      (mkWorld [] []) in
  exists rq,
    In (Step Static rq) (log (world_of r))
    /\ exists P, _get_is_converged demo_vasp one_atom CNone 0 = inr P
                 /\ P (r_restart rq) = inr true.
Proof.
  intros r.
  assert (H : exists rq, In (Step Static rq) (log (world_of r))).
  { vm_compute. eexists. right; right; left. reflexivity. }
  destruct H as [rq H]. exists rq. split; [exact H|].
  exact (proj1 (static_step_only_when_converged steady demo_vasp one_atom "out" None 2
                  true CNone 0 ∅ 5 [] rq) H).
Defined.

(** ** The exceptions of a run *)



Section ExceptionFacts.

Variable calc : string -> extractor.
Variable vasp : Vasp.
Variable outdir : string.
Variable first_trial : gmap string pyval.
Variable maxcalls : Z.
Variable nofail : bool.
Variable kwargs : gmap string pyval.
Variable is_converged : policy.

(** The exceptions allowed for. *)
Variable E : pyexn -> Prop.
Hypothesis E_policy : forall o e, is_converged o = inl e -> E e.










End ExceptionFacts.



(** ** A relaxation step that failed *)

Lemma in_removelast {A} (x : A) (l : list A) : In x (removelast l) -> In x l.
Proof.
  induction l as [|a [|b l] IH]; simpl; [tauto|tauto|].
  intros [->|H]; [left; reflexivity|right; apply IH, H].
Qed.

Section SettledFacts.

Variable good : Phase -> request -> Prop.

Lemma settled_weaken (evs : list event) :
  settled good evs -> settled_before_last good evs.
Proof. intros H ph rq Hin. apply H, in_removelast, Hin. Qed.

Lemma settled_snoc_any (evs : list event) (ev : event) :
  settled good evs -> settled_before_last good (evs ++ [ev]).
Proof. unfold settled_before_last. rewrite removelast_last. auto. Qed.

Lemma settled_snoc_step (evs : list event) (ph : Phase) (rq : request) :
  settled good evs -> good ph rq -> settled good (evs ++ [Step ph rq]).
Proof.
  intros H Hg ph' rq' Hin. apply in_app_or in Hin.
  destruct Hin as [Hin|[[= <- <-]|[]]]; [apply H, Hin|exact Hg].
Qed.

Lemma settled_snoc_final (evs : list event) (d : string) :
  settled good evs -> settled good (evs ++ [Final d]).
Proof.
  intros H ph' rq' Hin. apply in_app_or in Hin.
  destruct Hin as [Hin|[[=]|[]]]. apply H, Hin.
Qed.

Lemma settles_bind {A B} (m : M A) (k : A -> M B) :
  settles good m -> (forall a, settles good (k a)) -> settles good (bind m k).
Proof.
  intros Hm Hk w Hw. unfold bind. specialize (Hm w Hw).
  destruct (m w) as [a w1|e w1|w1]; [apply Hk, Hm|exact Hm|exact Hm].
Qed.

Lemma settles_quiet {A} (m : M A) :
  (forall w, log (world_of (m w)) = log w) -> settles good m.
Proof.
  intros Hm w Hw. specialize (Hm w).
  destruct (m w) as [a w1|e w1|w1]; simpl in Hm; rewrite Hm;
    [exact Hw|apply settled_weaken, Hw|apply settled_weaken, Hw].
Qed.

Lemma settles_asked (ph : Phase) (rq : request) :
  good ph rq -> settles good (vasp_iter ph rq).
Proof. intros Hg w Hw. simpl. apply settled_snoc_step; assumption. Qed.

Variable calc : string -> extractor.
Variable vasp : Vasp.
Variable outdir : string.
Variable first_trial : gmap string pyval.
Variable maxcalls : Z.
Variable nofail : bool.
Variable kwargs : gmap string pyval.
Variable is_converged : policy.

Hypothesis policy_tests_success : forall e b,
  is_converged (Some e) = inr b -> success e = true.

Lemma check_converged_settles (what : string) (l : locals) :
  settles good (check_converged maxcalls nofail is_converged what l).
Proof. apply settles_quiet. intros w. rewrite check_converged_world. reflexivity. Qed.

Lemma cleanup_settles (keepsteps : bool) (out : extractor) :
  settles good (cleanup outdir keepsteps out).
Proof. apply settles_quiet. intros w. apply cleanup_log. Qed.

Lemma yield_final_settles (d : string) : settles good (yield_final d).
Proof. intros w Hw. simpl. apply settled_snoc_final, Hw. Qed.


Lemma gwcalc_settles (l : locals) :
  good ExtraPhase
       (mkRequest (relaxed_structure l) (join3 outdir "relax_gwcalc" (str (nb_steps l)))
                  (output l) (Some "relgw") (params l)) ->
  settles good (gwcalc calc vasp outdir maxcalls l).
Proof.
  intros Hg w Hw. unfold gwcalc.
  destruct (more_calls maxcalls (maxcalls + 2) (nb_steps l) && _); [|exact Hw].
  unfold bind, vasp_iter. rewrite did_not_complete_ok. simpl.
  apply settled_snoc_step; assumption.
Qed.

Lemma static_step_settles (l : locals) :
  good Static (mkRequest (relaxed_structure l) outdir (output l)
                         (Some "static") kwargs) ->
  settles good (static_step calc outdir kwargs l).
Proof.
  intros Hg w Hw. rewrite static_step_spec. simpl.
  apply settled_snoc_step; assumption.
Qed.

Lemma relax_loop_settles (ph : Phase) (ceiling : Z) (word sub rel : string)
    (fuel : nat) :
  (forall l, after_first_trial first_trial (S (nb_steps l)) = true
             \/ success (calc (join3 outdir sub (str (nb_steps l)))) = true ->
             good ph (body_request outdir sub rel l)) ->
  forall l,
    settles good (relax_loop calc vasp outdir first_trial maxcalls kwargs
                             is_converged ph ceiling word sub rel fuel l).
Proof.
  intros Hg. induction fuel as [|fuel IH]; intros l w Hw; simpl;
    destruct (more_calls maxcalls ceiling (nb_steps l) && _);
    try exact Hw; try (apply settled_weaken, Hw).
  unfold bind.
  pose proof (relax_body_spec calc outdir first_trial kwargs is_converged
                              ph sub rel l w) as Hb.
  cbv zeta in Hb.
  destruct (relax_body _ _ _ _ _ _ _ _ _ _) as [[l1 brk] w1|e w1|w1];
    [| |contradiction].
  - destruct Hb as (-> & _ & _ & _ & Hb). cbn [fst snd].
    assert (H1 : settled good (log (asked ph (body_request outdir sub rel l) w))).
    { simpl. apply settled_snoc_step; [exact Hw|]. apply Hg.
      destruct (after_first_trial first_trial (S (nb_steps l)));
        [left; reflexivity|right].
      destruct Hb as [Hb _]. exact (policy_tests_success _ _ Hb). }
    destruct brk; [exact H1|]. apply IH, H1.
  - destruct Hb as (-> & _). simpl. apply settled_snoc_any, Hw.
Qed.

Lemma training_loop_settles (fuel : nat) :
  (forall l, success (calc (join3 outdir "relax_cellshape" (str (nb_steps l)))) = true ->
             good CellShape
                  (mkRequest (relaxed_structure l)
                             (join3 outdir "relax_cellshape" (str (nb_steps l)))
                             (output l) (Some (relaxation vasp))
                             (first_trial ∪ kwargs))) ->
  (forall rq, good Ionic rq) ->
  forall l,
    settles good (training_loop calc vasp outdir first_trial maxcalls kwargs
                                is_converged fuel l).
Proof.
  intros Hg Hi. induction fuel as [|fuel IH]; intros l w Hw; simpl;
    destruct (more_calls maxcalls maxcalls (nb_steps l));
    try exact Hw; try (apply settled_weaken, Hw).
  unfold bind.
  pose proof (training_body_spec calc vasp outdir first_trial kwargs is_converged
                                 l w) as Hb.
  cbv zeta in Hb.
  destruct (training_body _ _ _ _ _ _ _ _) as [[l1 brk] w1|e w1|w1];
    [| |contradiction].
  - destruct Hb as (-> & _ & _ & Hb). cbn [fst snd].
    match goal with
    | |- context [asked Ionic ?rq2 (asked CellShape ?rq1 w)] =>
        assert (H1 : settled good (log (asked Ionic rq2 (asked CellShape rq1 w))))
    end.
    { simpl. apply settled_snoc_step; [|apply Hi].
      apply settled_snoc_step; [exact Hw|]. apply Hg.
      exact (policy_tests_success _ _ Hb). }
    destruct brk; [exact H1|]. apply IH, H1.
  - destruct Hb as (-> & _). simpl. apply settled_snoc_any, Hw.
Qed.

End SettledFacts.

Lemma built_policy_tests_success (vasp : Vasp) (structure0 : Structure)
    (convergence : criterion) (minrelsteps : Z) (P : policy)
    (e : extractor) (b : bool) :
  _get_is_converged vasp structure0 convergence minrelsteps = inr P ->
  P (Some e) = inr b -> success e = true.
Proof.
  intros H. destruct (get_is_converged_guarded _ _ _ _ _ H) as [body ->].
  unfold guarded. destruct (success e); [reflexivity|discriminate].
Qed.

Lemma relax_run_settles (calc : string -> extractor) (vasp : Vasp)
    (outdir : string) (first_trial : gmap string pyval) (maxcalls : Z)
    (nofail : bool) (kwargs : gmap string pyval) (P : policy) (keepsteps : bool)
    (structure0 : Structure) (fuel : nat) :
  (forall e b, P (Some e) = inr b -> success e = true) ->
  settles (relaxation_step_ok calc first_trial outdir)
          (relax_run calc vasp outdir first_trial maxcalls nofail kwargs P
                     keepsteps structure0 fuel).
Proof.
  intros HP. unfold relax_run, cellshape_loop, ionic_loop.
  assert (Hloop : forall ph sub rel l,
             after_first_trial first_trial (S (nb_steps l)) = true
             \/ success (calc (join3 outdir sub (str (nb_steps l)))) = true ->
             relaxation_step_ok calc first_trial outdir ph
                                (body_request outdir sub rel l)).
  { intros ph sub rel l [Ha|Hs] _; [right|left; exact Hs].
    unfold after_first_trial in Ha. apply andb_true_iff in Ha.
    destruct Ha as [Hn Hf]. apply Nat.eqb_eq in Hn.
    apply negb_true_iff, Nat.eqb_neq in Hf.
    split; [exact Hf|]. exists sub. simpl.
    replace (nb_steps l) with 0 by lia. reflexivity. }
  apply settles_bind; [apply relax_loop_settles; [exact HP|apply Hloop]|].
  intros l1. apply settles_bind; [apply check_converged_settles|].
  intros _. apply settles_bind; [apply relax_loop_settles; [exact HP|apply Hloop]|].
  intros l2. apply settles_bind;
    [apply gwcalc_settles; intros [H|H]; discriminate|].
  intros l3. apply settles_bind; [apply check_converged_settles|].
  intros _. apply settles_bind;
    [apply static_step_settles; intros [H|H]; discriminate|].
  intros out. apply settles_bind; [apply cleanup_settles|].
  intros _. apply yield_final_settles.
Qed.

Lemma training_run_settles (calc : string -> extractor) (vasp : Vasp)
    (outdir : string) (first_trial : gmap string pyval) (maxcalls : Z)
    (nofail : bool) (kwargs : gmap string pyval) (P : policy)
    (structure0 : Structure) (fuel : nat) :
  (forall e b, P (Some e) = inr b -> success e = true) ->
  settles (cellshape_step_ok calc)
          (training_run calc vasp outdir first_trial maxcalls nofail kwargs P
                        structure0 fuel).
Proof.
  intros HP. unfold training_run.
  apply settles_bind.
  { apply training_loop_settles; [exact HP| |].
    - intros l Hs _. exact Hs.
    - intros rq H. discriminate. }
  intros l1. apply settles_bind; [apply check_converged_settles|].
  intros _. apply settles_bind; [apply check_converged_settles|].
  intros _. apply settles_bind;
    [apply static_step_settles; intros H; discriminate|].
  intros _. apply yield_final_settles.
Qed.

(** In [iter_relax] nothing follows a cell-shape or ionic step that
    failed, but for the step that is not tested: in the log of a run,
    however it ended, every such step that is not the last event either
    succeeded, or is step 0 of a run with a first trial. *)
Theorem failed_relaxation_step_stops_run (calc : string -> extractor) (vasp : Vasp)
    (structure0 : Structure) (outdir : string)
    (first_trial : option (gmap string pyval)) (maxcalls : Z)
    (keepsteps nofail : bool) (convergence : criterion) (minrelsteps : Z)
    (kwargs : gmap string pyval) (fuel : nat) (dirs : list string)
    (ph : Phase) (rq : request) :
  let r := iter_relax calc vasp structure0 outdir first_trial maxcalls keepsteps
                      nofail convergence minrelsteps kwargs fuel (mkWorld [] dirs) in
  ph = CellShape \/ ph = Ionic ->
  In (Step ph rq) (removelast (log (world_of r))) ->
  success (calc (r_outdir rq)) = true
  \/ first_trial_step (or_empty first_trial) outdir rq.
Proof.
  intros r Hph Hin.
  assert (H : settled_before_last
                (relaxation_step_ok calc (or_empty first_trial) outdir)
                (log (world_of r))).
  { subst r. unfold iter_relax, bind at 1, lift.
    destruct (_get_is_converged vasp structure0 convergence minrelsteps)
      as [e|P] eqn:Hget.
    - intros ph' rq' [].
    - pose proof (relax_run_settles calc vasp outdir (or_empty first_trial) maxcalls
                    nofail kwargs P keepsteps structure0 fuel
                    (fun e b => built_policy_tests_success _ _ _ _ _ e b Hget)
                    (mkWorld [] dirs)) as Hs.
      unfold ret.
      destruct (relax_run _ _ _ _ _ _ _ _ _ _ _ _) as [u w'|e w'|w'];
        [apply settled_weaken|idtac|idtac]; apply Hs; intros ph' rq' []. }
  exact (H ph rq Hin Hph).
Qed.

(** In [iter_training] nothing follows a cell-shape step that failed. *)
Theorem failed_cellshape_step_stops_training (calc : string -> extractor)
    (vasp : Vasp) (structure0 : Structure) (outdir : string)
    (first_trial : option (gmap string pyval)) (maxcalls : Z)
    (nofail : bool) (convergence : criterion) (minrelsteps : Z)
    (kwargs : gmap string pyval) (fuel : nat) (dirs : list string) (rq : request) :
  let r := iter_training calc vasp structure0 outdir first_trial maxcalls
                         nofail convergence minrelsteps kwargs fuel
                         (mkWorld [] dirs) in
  In (Step CellShape rq) (removelast (log (world_of r))) ->
  success (calc (r_outdir rq)) = true.
Proof.
  intros r Hin.
  assert (H : settled_before_last (cellshape_step_ok calc) (log (world_of r))).
  { subst r. unfold iter_training, bind at 1, lift.
    destruct (_get_is_converged vasp structure0 convergence (-1))
      as [e|P] eqn:Hget.
    - intros ph' rq' [].
    - pose proof (training_run_settles calc vasp outdir (or_empty first_trial)
                    maxcalls nofail kwargs P structure0 fuel
                    (fun e b => built_policy_tests_success _ _ _ _ _ e b Hget)
                    (mkWorld [] dirs)) as Hs.
      unfold ret.
      destruct (training_run _ _ _ _ _ _ _ _ _ _ _) as [u w'|e w'|w'];
        [apply settled_weaken|idtac|idtac]; apply Hs; intros ph' rq' []. }
  exact (H CellShape rq Hin eq_refl).
Qed.

Lemma failed_relaxation_step_stops_run_witness :
  let r := iter_relax failing demo_vasp one_atom "out" (Some two_ionic_steps) 2
                      true true CNone 0 ∅ 5 (mkWorld [] []) in
  exists rq,
    In (Step CellShape rq) (removelast (log (world_of r)))
    /\ (success (failing (r_outdir rq)) = true
        \/ first_trial_step two_ionic_steps "out" rq).
Proof.
  intros r.
  assert (H : exists rq, In (Step CellShape rq) (removelast (log (world_of r)))).
  { vm_compute. eexists. left. reflexivity. }
  destruct H as [rq H]. exists rq. split; [exact H|].
  exact (failed_relaxation_step_stops_run failing demo_vasp one_atom "out"
           (Some two_ionic_steps) 2 true true CNone 0 ∅ 5 [] CellShape rq
           (or_introl eq_refl) H).
Defined.

Lemma failed_cellshape_step_stops_training_witness :
  let r := iter_training steady demo_vasp one_atom "out" None 2 true CNone 0 ∅ 5
                         (mkWorld [] []) in
  exists rq,
    In (Step CellShape rq) (removelast (log (world_of r)))
    /\ success (steady (r_outdir rq)) = true.
Proof.
  intros r.
  assert (H : exists rq, In (Step CellShape rq) (removelast (log (world_of r)))).
  { vm_compute. eexists. left. reflexivity. }
  destruct H as [rq H]. exists rq. split; [exact H|].
  exact (failed_cellshape_step_stops_training steady demo_vasp one_atom "out" None 2
           true CNone 0 ∅ 5 [] rq H).
Defined.

(** ** The epitaxial search: what it never signals, and its bracket *)

Section SearchFacts.

Variable calc : string -> extractor.
Variable fmt : Q -> string.
Variable structure0 : Structure.
Variable outdir : string.
Variable direction : vec3.
Variable epiconv : Q.
Variable initstep : Q.
Variable kwargs : gmap string pyval.



End SearchFacts.


Lemma half_width_l (a b : Q) : ((b - (1 # 2) * (b + a)) * 2 == b - a)%Q.
Proof. ring. Qed.

Lemma half_width_r (a b : Q) : (((1 # 2) * (b + a) - a) * 2 == b - a)%Q.
Proof. ring. Qed.

Lemma pow2_succ (n : nat) :
  (inject_Z (2 ^ Z.of_nat (S n)) == 2 * inject_Z (2 ^ Z.of_nat n))%Q.
Proof.
  rewrite Nat2Z.inj_succ, Z.pow_succ_r by lia. rewrite inject_Z_mult. reflexivity.
Qed.

(** Every pass through the bisection loop of [iter_epitaxial] asks for
    one calculation, at the middle of the bracket, and halves the bracket:
    when the loop is left after [n] more calculations, the bracket is
    [2^n] times narrower than it was. *)
Theorem bisection_halves_bracket (calc : string -> extractor) (fmt : Q -> string)
    (structure0 : Structure) (outdir : string) (direction : vec3)
    (epiconv : Q) (kwargs : gmap string pyval) (s : Q) (fuel : nat) :
  forall (b : bracket) (w : world),
    match bisect_loop calc fmt structure0 outdir direction epiconv kwargs s fuel b w with
    | Ok b' w' =>
        exists n,
          steps Ionic (log w') = steps Ionic (log w) + n
          /\ ((xend b' - xstart b') * inject_Z (2 ^ Z.of_nat n)
              == xend b - xstart b)%Q
    | _ => True
    end.
Proof.
  induction fuel as [|fuel IH]; intros b w.
  - simpl. destruct (keep_bisecting structure0 epiconv b); [exact Logic.I|].
    exists 0. split; [lia|]. change (inject_Z (2 ^ Z.of_nat 0)) with 1%Q. ring.
  - change (bisect_loop calc fmt structure0 outdir direction epiconv kwargs s
                        (S fuel) b w)
      with ((if keep_bisecting structure0 epiconv b
             then bind (bisect_body calc fmt structure0 outdir direction kwargs s b)
                       (fun b1 => bisect_loop calc fmt structure0 outdir direction
                                              epiconv kwargs s fuel b1)
             else ret b) w).
    destruct (keep_bisecting structure0 epiconv b).
    2:{ exists 0. split; [lia|]. change (inject_Z (2 ^ Z.of_nat 0)) with 1%Q.
        simpl. ring. }
    unfold bind at 1, bisect_body, bind. rewrite trial_spec.
    destruct (Qltb 0 _); unfold ret;
      match goal with
      | |- context [bisect_loop _ _ _ _ _ _ _ _ _ ?b1 ?w1] =>
          specialize (IH b1 w1);
          destruct (bisect_loop calc fmt structure0 outdir direction epiconv kwargs
                                s fuel b1 w1) as [b' w'|e w'|w'];
          try exact Logic.I
      end;
      destruct IH as (n & Hn & Hw); exists (S n);
      (split;
       [rewrite Hn; simpl; rewrite steps_snoc_step; simpl; lia
       |rewrite pow2_succ; simpl in Hw]).
    + rewrite <- (half_width_l (xstart b) (xend b)), <- Hw. ring.
    + rewrite <- (half_width_r (xstart b) (xend b)), <- Hw. ring.
Qed.

Lemma inject_succ (k : nat) :
  (inject_Z (Z.of_nat (S k)) == inject_Z (Z.of_nat k) + 1)%Q.
Proof. rewrite Nat2Z.inj_succ. unfold Z.succ. rewrite inject_Z_plus. reflexivity. Qed.

(** The loop of [iter_epitaxial] that looks for a bracket walks in steps
    of [initstep], in the direction given by the sign of the stress: when
    it is left after [k] more calculations the end point has moved by [k]
    steps, and the start point follows one step behind. *)
Theorem bracket_walks_by_initstep (calc : string -> extractor) (fmt : Q -> string)
    (structure0 : Structure) (outdir : string) (direction : vec3)
    (initstep : Q) (kwargs : gmap string pyval) (s : Q) (fuel : nat) :
  forall (b : bracket) (w : world),
    match bracket_loop calc fmt structure0 outdir direction initstep kwargs s fuel b w with
    | Ok b' w' =>
        exists k,
          steps Ionic (log w') = steps Ionic (log w) + k
          /\ (xend b' == xend b + inject_Z (Z.of_nat k) * signed_step initstep s)%Q
          /\ (0 < k -> (xstart b' == xend b' - signed_step initstep s)%Q)
          /\ (k = 0 -> b' = b)
    | _ => True
    end.
Proof.
  induction fuel as [|fuel IH]; intros b w.
  - simpl. unfold bind, last_calc. destruct (last (allcalcs b)); [|exact Logic.I].
    unfold ret at 1. destruct (Qltb 0 _); [exact Logic.I|].
    exists 0. split; [lia|]. split; [simpl; ring|]. split; [lia|reflexivity].
  - change (bracket_loop calc fmt structure0 outdir direction initstep kwargs s
                         (S fuel) b w)
      with (bind (last_calc (allcalcs b))
              (fun e =>
                 if Qltb 0 (s * component direction (stress e))
                 then
                   bind (trial calc fmt structure0 outdir direction kwargs
                               (xend b + signed_step initstep s)%Q (allcalcs b))
                        (fun e1 =>
                           bracket_loop calc fmt structure0 outdir direction initstep
                                        kwargs s fuel
                                        (mkBracket (xend b) (eend b)
                                           (xend b + signed_step initstep s)%Q e1
                                           (allcalcs b ++ [e1])%list))
                 else ret b) w).
    unfold bind at 1, last_calc. destruct (last (allcalcs b)); [|exact Logic.I].
    unfold ret at 1. destruct (Qltb 0 _).
    2:{ exists 0. split; [lia|]. split; [simpl; ring|]. split; [lia|reflexivity]. }
    unfold bind. rewrite trial_spec.
    match goal with
    | |- context [bracket_loop _ _ _ _ _ _ _ _ _ ?b1 ?w1] =>
        specialize (IH b1 w1);
        destruct (bracket_loop calc fmt structure0 outdir direction initstep kwargs
                               s fuel b1 w1) as [b' w'|e' w'|w'];
        try exact Logic.I
    end.
    destruct IH as (k & Hk & Hx & Hs & H0). exists (S k). simpl in Hk, Hx.
    split; [rewrite Hk, steps_snoc_step; simpl; lia|].
    split; [rewrite Hx, inject_succ; ring|].
    split; [|discriminate]. intros _.
    destruct k as [|k]; [rewrite (H0 eq_refl); simpl; ring|apply Hs; lia].
Qed.

Lemma strain_of_vector (d p : vec3) (x : Q) :
  strained_along d x p (vadd p (mdotv (outer_scaled d d x) p)).
Proof.
  destruct d as [[d1 d2] d3], p as [[p1 p2] p3]. split.
  - intros [[u1 u2] u3] Hu. simpl in *.
    transitivity (u1 * p1 + u2 * p2 + u3 * p3
                  + x * (d1 * p1 + d2 * p2 + d3 * p3)
                    * (u1 * d1 + u2 * d2 + u3 * d3))%Q; [ring|].
    rewrite Hu. ring.
  - simpl. ring.
Qed.

Lemma col_of_strained_cell (k : nat) (s c : mat3) :
  col k (madd c (mdotm s c)) = vadd (col k c) (mdotv s (col k c)).
Proof.
  destruct s as [[[[s11 s12] s13] [[s21 s22] s23]] [[s31 s32] s33]].
  destruct c as [[[[c11 c12] c13] [[c21 c22] c23]] [[c31 c32] c33]].
  destruct k as [|[|k]]; reflexivity.
Qed.

(** [change_structure(x)] strains the structure along the direction only:
    of every cell vector and every atomic position, the components
    orthogonal to [direction] are kept and the component along it is
    scaled by [1 + x |direction|^2]; no atom is added or removed. *)
Theorem change_structure_strains_along_direction (structure0 : Structure)
    (direction : vec3) (x : Q) :
  let s := change_structure structure0 direction x in
  (forall k, strained_along direction x (col k (cell structure0)) (col k (cell s)))
  /\ Forall2 (strained_along direction x) (atoms structure0) (atoms s).
Proof.
  intros s. subst s. unfold change_structure. simpl. split.
  - intros k. rewrite col_of_strained_cell. apply strain_of_vector.
  - induction (atoms structure0) as [|p l IH]; simpl; constructor;
      [apply strain_of_vector|exact IH].
Qed.

(** ** The parameters and the directories of the calls of [iter_relax] *)

Lemma ends_bind {A B} (K : world -> Prop) (Q : A -> world -> Prop)
    (R : B -> world -> Prop) (m : M A) (k : A -> M B) (w : world) :
  ends K Q (m w) ->
  (forall a w1, Q a w1 -> ends K R (k a w1)) ->
  ends K R (bind m k w).
Proof.
  unfold bind. destruct (m w) as [a w1|e w1|w1]; simpl; auto.
Qed.

Lemma ends_quiet {A} (K : world -> Prop) (Q : A -> world -> Prop) (J : world -> Prop)
    (m : M A) (w : world) :
  world_of (m w) = w -> J w -> (J w -> K w) -> (forall a, J w -> Q a w) ->
  ends K Q (m w).
Proof.
  intros Hw HJ HK HQ. destruct (m w) as [a w1|e w1|w1]; simpl in *; subst w1; auto.
Qed.

Section JointFacts.

Variable calc : string -> extractor.
Variable vasp : Vasp.
Variable outdir : string.
Variable first_trial : gmap string pyval.
Variable maxcalls : Z.
Variable nofail : bool.
Variable kwargs : gmap string pyval.
Variable is_converged : policy.

(** What is known of the counter, the parameters and the world between
    two passes of a loop, and what is known of the world when the run
    stops. *)
Variable J : nat -> gmap string pyval -> world -> Prop.
Variable K : world -> Prop.
Hypothesis J_K : forall n p w, J n p w -> K w.

Lemma relax_loop_joint (ph : Phase) (ceiling : Z) (word sub rel : string)
    (fuel : nat) :
  (forall l w,
      J (nb_steps l) (params l) w ->
      J (S (nb_steps l))
        (if after_first_trial first_trial (S (nb_steps l)) then kwargs else params l)
        (asked ph (body_request outdir sub rel l) w)) ->
  forall l w,
    J (nb_steps l) (params l) w ->
    ends K (fun l' w' => J (nb_steps l') (params l') w')
         (relax_loop calc vasp outdir first_trial maxcalls kwargs is_converged
                     ph ceiling word sub rel fuel l w).
Proof.
  intros Hbody. induction fuel as [|fuel IH]; intros l w Hw; simpl;
    destruct (more_calls maxcalls ceiling (nb_steps l) && _);
    try exact Hw; try exact (J_K _ _ _ Hw).
  unfold bind.
  pose proof (relax_body_spec calc outdir first_trial kwargs is_converged
                              ph sub rel l w) as Hb.
  cbv zeta in Hb. specialize (Hbody l w Hw).
  destruct (relax_body _ _ _ _ _ _ _ _ _ _) as [[l1 brk] w1|e w1|w1];
    [| |contradiction].
  - destruct Hb as (-> & Hn & _ & _ & Hp). cbn [fst snd].
    assert (H1 : J (nb_steps l1) (params l1)
                   (asked ph (body_request outdir sub rel l) w)).
    { rewrite Hn.
      destruct (after_first_trial first_trial (S (nb_steps l)));
        destruct Hp as [_ ->]; exact Hbody. }
    destruct brk; [exact H1|]. apply IH, H1.
  - destruct Hb as (-> & _). simpl. exact (J_K _ _ _ Hbody).
Qed.

End JointFacts.

Lemma numbered_snoc_step (outdir : string) (evs : list event) (ph : Phase)
    (rq : request) :
  numbered outdir evs ->
  match ph with
  | Static => r_outdir rq = outdir
  | CellShape => r_outdir rq = join3 outdir "relax_cellshape" (str (length evs))
  | Ionic => r_outdir rq = join3 outdir "relax_ions" (str (length evs))
  | ExtraPhase => r_outdir rq = join3 outdir "relax_gwcalc" (str (length evs))
  end ->
  numbered outdir (evs ++ [Step ph rq]).
Proof.
  intros He Hrq i ph' rq' Hi.
  destruct (Nat.lt_ge_cases i (length evs)) as [Hlt|Hge].
  - rewrite nth_error_app1 in Hi by exact Hlt. exact (He i ph' rq' Hi).
  - rewrite nth_error_app2 in Hi by exact Hge.
    destruct (i - length evs) as [|j] eqn:Ej; [|destruct j; discriminate].
    simpl in Hi. injection Hi as <- <-.
    replace i with (length evs) by lia. exact Hrq.
Qed.

Lemma numbered_snoc_final (outdir : string) (evs : list event) (d : string) :
  numbered outdir evs -> numbered outdir (evs ++ [Final d]).
Proof.
  intros He i ph' rq' Hi.
  destruct (Nat.lt_ge_cases i (length evs)) as [Hlt|Hge].
  - rewrite nth_error_app1 in Hi by exact Hlt. exact (He i ph' rq' Hi).
  - rewrite nth_error_app2 in Hi by exact Hge.
    destruct (i - length evs) as [|j] eqn:Ej; [|destruct j; discriminate].
    discriminate.
Qed.

Lemma first_trial_first_snoc (first_trial kwargs : gmap string pyval)
    (evs : list event) (ev : event) :
  first_trial_first first_trial kwargs evs ->
  evs <> [] ->
  base_call kwargs ev ->
  first_trial_first first_trial kwargs (evs ++ [ev]).
Proof.
  intros He Hne Hev. destruct evs as [|[ph rq|d] rest]; [contradiction| |].
  - destruct ph; simpl in *; destruct He as [H1 H2];
      (split; [exact H1|apply Forall_app; split; [exact H2|constructor; auto]]).
  - simpl in *. apply Forall_app. split; [exact He|constructor; auto].
Qed.

Lemma loop_state_body (outdir : string) (first_trial kwargs : gmap string pyval)
    (ph : Phase) (sub rel : string) (l : locals) (w : world) :
  (ph = CellShape /\ sub = "relax_cellshape") \/ (ph = Ionic /\ sub = "relax_ions") ->
  loop_state outdir first_trial kwargs (nb_steps l) (params l) w ->
  loop_state outdir first_trial kwargs (S (nb_steps l))
    (if after_first_trial first_trial (S (nb_steps l)) then kwargs else params l)
    (asked ph (body_request outdir sub rel l) w).
Proof.
  intros Hph (Hlen & [Hnum Hft] & Hp0 & Hp1).
  split; [simpl; rewrite length_app; simpl; lia|].
  split; [split|split; [lia|]].
  - simpl. apply numbered_snoc_step; [exact Hnum|]. rewrite Hlen.
    destruct Hph as [[-> ->]|[-> ->]]; reflexivity.
  - simpl. destruct (log w) as [|ev evs] eqn:El.
    + simpl in Hlen. destruct Hph as [[-> _]|[-> _]]; simpl;
        (split; [apply Hp0; lia|constructor]).
    + apply first_trial_first_snoc; [exact Hft|discriminate|].
      simpl. apply Hp1. simpl in Hlen. lia.
  - intros _. unfold after_first_trial.
    destruct (nb_steps l) as [|n] eqn:En.
    + simpl. destruct (size first_trial =? 0) eqn:Es; simpl; [|reflexivity].
      rewrite (Hp0 eq_refl).
      apply Nat.eqb_eq, map_size_empty_iff in Es. subst first_trial.
      apply map_empty_union.
    + simpl. apply Hp1. lia.
Qed.

Lemma relax_run_calls (calc : string -> extractor) (vasp : Vasp)
    (outdir : string) (first_trial : gmap string pyval) (maxcalls : Z)
    (nofail : bool) (kwargs : gmap string pyval) (P : policy) (keepsteps : bool)
    (structure0 : Structure) (fuel : nat) (w : world) :
  log w = [] ->
  calls_as_expected outdir first_trial kwargs
    (world_of (relax_run calc vasp outdir first_trial maxcalls nofail kwargs P
                         keepsteps structure0 fuel w)).
Proof.
  intros Hw.
  set (K := calls_as_expected outdir first_trial kwargs).
  set (J := loop_state outdir first_trial kwargs).
  assert (JK : forall n p w0, J n p w0 -> K w0) by (intros n p w0 H; apply H).
  assert (H : ends K (fun (_ : unit) w' => K w')
                (relax_run calc vasp outdir first_trial maxcalls nofail kwargs P
                           keepsteps structure0 fuel w)).
  2:{ destruct (relax_run _ _ _ _ _ _ _ _ _ _ _ _); exact H. }
  unfold relax_run, cellshape_loop, ionic_loop.
  apply (ends_bind K (fun l w' => J (nb_steps l) (params l) w')).
  { apply (relax_loop_joint calc vasp outdir first_trial maxcalls kwargs P J K JK).
    - intros l0 w0. apply loop_state_body. left. split; reflexivity.
    - simpl. split; [rewrite Hw; reflexivity|].
      split; [|split; [reflexivity|intros []; reflexivity]].
      split; rewrite Hw; [intros [|i] ph rq; discriminate|exact Logic.I]. }
  intros l1 w1 H1.
  apply (ends_bind K (fun _ w' => J (nb_steps l1) (params l1) w')).
  { apply (ends_quiet K _ (J (nb_steps l1) (params l1)));
      [apply check_converged_world|exact H1|apply JK|auto]. }
  intros _ w2 H2.
  apply (ends_bind K (fun l w' => J (nb_steps l) (params l) w')).
  { apply (relax_loop_joint calc vasp outdir first_trial maxcalls kwargs P J K JK);
      [|exact H2].
    intros l0 w0. apply loop_state_body. right. split; reflexivity. }
  intros l3 w3 H3.
  apply (ends_bind K (fun l w' => K w')).
  { destruct H3 as (Hlen & [Hnum Hft] & Hp0 & Hp1). unfold gwcalc.
    destruct (more_calls maxcalls (maxcalls + 2) (nb_steps l3) && _);
      [|split; assumption].
    unfold bind, vasp_iter. rewrite did_not_complete_ok. simpl. split; simpl.
    - apply numbered_snoc_step; [exact Hnum|]. rewrite Hlen. reflexivity.
    - destruct (log w3) as [|ev evs] eqn:El.
      + simpl in Hlen. simpl. split; [apply Hp0; lia|constructor].
      + apply first_trial_first_snoc; [exact Hft|discriminate|].
        simpl. apply Hp1. simpl in Hlen. lia. }
  intros l4 w4 H4.
  apply (ends_bind K (fun _ w' => K w')).
  { apply (ends_quiet K _ K); [apply check_converged_world|exact H4|auto|auto]. }
  intros _ w5 [Hnum Hft].
  unfold bind at 1. rewrite static_step_spec.
  match goal with
  | |- context [asked Static ?rq w5] => set (w6 := asked Static rq w5)
  end.
  assert (H6 : K w6 /\ log w6 <> []).
  { split; [split|]; simpl.
    - apply numbered_snoc_step; [exact Hnum|reflexivity].
    - destruct (log w5) as [|ev evs] eqn:El.
      + simpl. split; [reflexivity|constructor].
      + apply first_trial_first_snoc; [exact Hft|discriminate|reflexivity].
    - intros H. apply app_eq_nil in H. destruct H as [_ H]. discriminate. }
  clearbody w6. destruct H6 as [[Hnum6 Hft6] Hne6]. unfold bind.
  pose proof (cleanup_log outdir keepsteps (Extract calc outdir) w6) as Hc.
  destruct (cleanup outdir keepsteps (Extract calc outdir) w6) as [u w7|e w7|w7];
    simpl in Hc; unfold K, calls_as_expected; simpl; rewrite Hc;
    [|split; assumption|split; assumption].
  split; [apply numbered_snoc_final, Hnum6|].
  apply first_trial_first_snoc; [exact Hft6|exact Hne6|exact Logic.I].
Qed.

(** The directories of the calls of [iter_relax] are numbered by one
    counter that runs through the phases: the [i]-th call of a run (from
    0) is made in [relax_cellshape/i], [relax_ions/i] or [relax_gwcalc/i]
    under [outdir], by its phase, and the static call in [outdir]
    itself. *)
Theorem calls_numbered_through_phases (calc : string -> extractor) (vasp : Vasp)
    (structure0 : Structure) (outdir : string)
    (first_trial : option (gmap string pyval)) (maxcalls : Z)
    (keepsteps nofail : bool) (convergence : criterion) (minrelsteps : Z)
    (kwargs : gmap string pyval) (fuel : nat) (dirs : list string) :
  numbered outdir
    (log (world_of (iter_relax calc vasp structure0 outdir first_trial maxcalls
                               keepsteps nofail convergence minrelsteps kwargs fuel
                               (mkWorld [] dirs)))).
Proof.
  unfold iter_relax, bind at 1, lift.
  destruct (_get_is_converged vasp structure0 convergence minrelsteps) as [e|P].
  - intros [|i] ph rq; discriminate.
  - apply (relax_run_calls calc vasp outdir (or_empty first_trial) maxcalls nofail
             kwargs P keepsteps structure0 fuel (mkWorld [] dirs) eq_refl).
Qed.

(** In [iter_relax] the overrides of [first_trial] are used for the very
    first calculation only: the first call of a run, unless it is the
    static one, is made with [first_trial] laid over [kwargs], and every
    later call with [kwargs] alone. *)
Theorem first_trial_only_in_first_call (calc : string -> extractor) (vasp : Vasp)
    (structure0 : Structure) (outdir : string)
    (first_trial : option (gmap string pyval)) (maxcalls : Z)
    (keepsteps nofail : bool) (convergence : criterion) (minrelsteps : Z)
    (kwargs : gmap string pyval) (fuel : nat) (dirs : list string) :
  first_trial_first (or_empty first_trial) kwargs
    (log (world_of (iter_relax calc vasp structure0 outdir first_trial maxcalls
                               keepsteps nofail convergence minrelsteps kwargs fuel
                               (mkWorld [] dirs)))).
Proof.
  unfold iter_relax, bind at 1, lift.
  destruct (_get_is_converged vasp structure0 convergence minrelsteps) as [e|P].
  - exact Logic.I.
  - apply (relax_run_calls calc vasp outdir (or_empty first_trial) maxcalls nofail
             kwargs P keepsteps structure0 fuel (mkWorld [] dirs) eq_refl).
Qed.

(** ** The calls of [iter_training] *)

Lemma training_loop_calls (calc : string -> extractor) (vasp : Vasp)
    (outdir : string) (first_trial : gmap string pyval) (maxcalls : Z)
    (kwargs : gmap string pyval) (P : policy) (fuel : nat) :
  (0 < maxcalls)%Z ->
  forall (l : locals) (w : world),
    let r := training_loop calc vasp outdir first_trial maxcalls kwargs P fuel l w in
    exists a b,
      steps CellShape (log (world_of r)) = steps CellShape (log w) + a
      /\ steps Ionic (log (world_of r)) = steps Ionic (log w) + b
      /\ b <= a <= b + 1
      /\ (Z.of_nat (a + b) + Z.of_nat (nb_steps l)
          <= Z.max (Z.of_nat (nb_steps l)) (maxcalls + 1))%Z
      /\ (forall l' w', r = Ok l' w' -> a = b)
      /\ ((maxcalls <= Z.of_nat fuel + Z.of_nat (nb_steps l))%Z ->
          forall w', r <> Fuel w').
Proof.
  intros Hpos. induction fuel as [|fuel IH]; intros l w; simpl.
  - destruct (more_calls maxcalls maxcalls (nb_steps l)) eqn:Ec; simpl;
      exists 0, 0; (split; [lia|]); (split; [lia|]); (split; [lia|]);
      (split; [lia|]); (split; [reflexivity|]).
    + apply (more_calls_bounded _ _ _ Hpos) in Ec. lia.
    + discriminate.
  - destruct (more_calls maxcalls maxcalls (nb_steps l)) eqn:Ec; simpl.
    2:{ exists 0, 0. do 4 (split; [lia|]). split; [reflexivity|discriminate]. }
    apply (more_calls_bounded _ _ _ Hpos) in Ec.
    unfold bind.
    pose proof (training_body_spec calc vasp outdir first_trial kwargs P l w) as Hb.
    cbv zeta in Hb.
    destruct (training_body _ _ _ _ _ _ _ _) as [[l1 brk] w1|e w1|w1];
      [| |contradiction].
    + destruct Hb as (-> & Hnb & _). cbn [fst snd].
      match goal with
      | |- context [asked Ionic ?rq2 (asked CellShape ?rq1 w)] =>
          set (w2 := asked Ionic rq2 (asked CellShape rq1 w));
          assert (Hcs : steps CellShape (log w2) = steps CellShape (log w) + 1)
            by (simpl; rewrite !steps_snoc_step; simpl; lia);
          assert (Hio : steps Ionic (log w2) = steps Ionic (log w) + 1)
            by (simpl; rewrite !steps_snoc_step; simpl; lia)
      end.
      clearbody w2. destruct brk; cbn [world_of ret].
      * unfold ret. cbn [world_of]. exists 1, 1.
        do 4 (split; [lia|]). split; [reflexivity|discriminate].
      * specialize (IH l1 w2). cbv zeta in IH.
        destruct IH as (a & b & H1 & H2 & H3 & H4 & H5 & H6).
        exists (S a), (S b). rewrite H1, H2, Hcs, Hio.
        do 4 (split; [lia|]). split.
        -- intros l' w' Hr. rewrite (H5 l' w' Hr). reflexivity.
        -- intros Hf. apply H6. lia.
    + destruct Hb as (-> & _). simpl. exists 1, 0.
      rewrite !steps_snoc_step. simpl.
      do 4 (split; [lia|]). split; discriminate.
Qed.

Lemma training_tail_calls (calc : string -> extractor) (outdir : string)
    (maxcalls : Z) (nofail : bool) (kwargs : gmap string pyval) (P : policy)
    (l : locals) (w : world) :
  let t := (check_converged maxcalls nofail P "cell-shape" l ;;
            check_converged maxcalls nofail P "ions" l ;;
            _ <- static_step calc outdir kwargs l ;;
            yield_final outdir) w in
  steps CellShape (log (world_of t)) = steps CellShape (log w)
  /\ steps Ionic (log (world_of t)) = steps Ionic (log w)
  /\ forall w', t <> Fuel w'.
Proof.
  intros t. subst t. unfold bind.
  pose proof (check_converged_world maxcalls nofail P "cell-shape" l w) as H1.
  pose proof (check_converged_not_fuel maxcalls nofail P "cell-shape" l w) as F1.
  destruct (check_converged maxcalls nofail P "cell-shape" l w) as [u w1|e w1|w1];
    simpl in H1; subst w1;
    [|simpl; repeat split; discriminate|destruct (F1 w eq_refl)].
  pose proof (check_converged_world maxcalls nofail P "ions" l w) as H2.
  pose proof (check_converged_not_fuel maxcalls nofail P "ions" l w) as F2.
  destruct (check_converged maxcalls nofail P "ions" l w) as [u2 w1|e w1|w1];
    simpl in H2; subst w1;
    [|simpl; repeat split; discriminate|destruct (F2 w eq_refl)].
  rewrite static_step_spec. unfold yield_final. simpl.
  rewrite !steps_snoc_final, !steps_snoc_step. simpl.
  split; [lia|]. split; [lia|discriminate].
Qed.

(** [maxcalls] bounds the calls of [iter_training] of both kinds taken
    together: a run makes a cell-shape and an ionic call in turn, at most
    [maxcalls + 1] of them in all, as many of one kind as of the other
    when it ends normally; and the loop needs no more than [maxcalls]
    passes. *)
Theorem training_call_ceiling (calc : string -> extractor) (vasp : Vasp)
    (structure0 : Structure) (outdir : string)
    (first_trial : option (gmap string pyval)) (maxcalls : Z)
    (nofail : bool) (convergence : criterion) (minrelsteps : Z)
    (kwargs : gmap string pyval) (fuel : nat) (dirs : list string) :
  (0 < maxcalls)%Z ->
  let r := iter_training calc vasp structure0 outdir first_trial maxcalls
                         nofail convergence minrelsteps kwargs fuel
                         (mkWorld [] dirs) in
  let cs := steps CellShape (log (world_of r)) in
  let io := steps Ionic (log (world_of r)) in
  io <= cs <= io + 1
  /\ (Z.of_nat (cs + io) <= maxcalls + 1)%Z
  /\ (forall w', r = Ok tt w' -> cs = io)
  /\ ((maxcalls <= Z.of_nat fuel)%Z -> forall w', r <> Fuel w').
Proof.
  intros Hpos r.
  set (w := mkWorld [] dirs) in *.
  assert (E : r = match _get_is_converged vasp structure0 convergence (-1) with
                  | inl x => Raise x w
                  | inr P => training_run calc vasp outdir (or_empty first_trial)
                                          maxcalls nofail kwargs P
                                          structure0 fuel w
                  end).
  { subst r. unfold iter_training, bind, lift.
    destruct (_get_is_converged _ _ _ _); reflexivity. }
  clearbody r. subst r.
  destruct (_get_is_converged vasp structure0 convergence (-1)) as [e|P].
  { simpl. unfold steps. simpl. split; [lia|]. split; [lia|].
    split; discriminate. }
  pose proof (training_loop_calls calc vasp outdir (or_empty first_trial) maxcalls
                kwargs P fuel Hpos (mkLocals 0 None structure0 kwargs) w) as H.
  cbv zeta in H. destruct H as (a & b & H1 & H2 & H3 & H4 & H5 & H6).
  assert (Hw : steps CellShape (log w) = 0 /\ steps Ionic (log w) = 0)
    by (split; reflexivity).
  destruct Hw as [Hw1 Hw2]. cbn [nb_steps] in H4, H6.
  destruct (training_loop calc vasp outdir (or_empty first_trial) maxcalls kwargs P
                          fuel (mkLocals 0 None structure0 kwargs) w)
    as [l1 w1|e w1|w1] eqn:EL; cbn [world_of] in H1, H2.
  - assert (Er : training_run calc vasp outdir (or_empty first_trial) maxcalls nofail
                              kwargs P structure0 fuel w
                 = (check_converged maxcalls nofail P "cell-shape" l1 ;;
                    check_converged maxcalls nofail P "ions" l1 ;;
                    _ <- static_step calc outdir kwargs l1 ;;
                    yield_final outdir) w1).
    { unfold training_run. unfold bind at 1. rewrite EL. reflexivity. }
    rewrite Er.
    destruct (training_tail_calls calc outdir maxcalls nofail kwargs P l1 w1)
      as (T1 & T2 & T3).
    cbv zeta. rewrite T1, T2, H1, H2, Hw1, Hw2.
    specialize (H5 l1 w1 eq_refl).
    split; [lia|]. split; [lia|]. split; [intros; lia|]. intros _. exact T3.
  - assert (Er : training_run calc vasp outdir (or_empty first_trial) maxcalls nofail
                              kwargs P structure0 fuel w = Raise e w1).
    { unfold training_run. unfold bind at 1. rewrite EL. reflexivity. }
    rewrite Er. cbv zeta. cbn [world_of]. rewrite H1, H2, Hw1, Hw2.
    split; [lia|]. split; [lia|]. split; discriminate.
  - assert (Er : training_run calc vasp outdir (or_empty first_trial) maxcalls nofail
                              kwargs P structure0 fuel w = Fuel w1).
    { unfold training_run. unfold bind at 1. rewrite EL. reflexivity. }
    rewrite Er. cbv zeta. cbn [world_of]. rewrite H1, H2, Hw1, Hw2.
    split; [lia|]. split; [lia|]. split; [discriminate|].
    intros Hf. exfalso. apply (H6 ltac:(lia) w1). reflexivity.
Qed.

Lemma training_call_ceiling_witness :
  (0 < 4)%Z
  /\ (let r := iter_training restless demo_vasp one_atom "out" (Some two_ionic_steps)
                             4 true CNone (-1) ∅ 9 (mkWorld [] []) in
      let cs := steps CellShape (log (world_of r)) in
      let io := steps Ionic (log (world_of r)) in
      io <= cs <= io + 1
      /\ (Z.of_nat (cs + io) <= 4 + 1)%Z
      /\ (forall w', r = Ok tt w' -> cs = io)
      /\ ((4 <= Z.of_nat 9)%Z -> forall w', r <> Fuel w')).
Proof.
  split; [lia|].
  apply (training_call_ceiling restless demo_vasp one_atom "out"
           (Some two_ionic_steps) 4 true CNone (-1) ∅ 9 []).
  lia.
Defined.

(** ** No ceiling *)



